(** * The Astarte dashboard API client (src/astarte-client/client.ts)

    A shallow embedding of [AstarteClient]: the endpoint table, the
    authenticated request helpers, the resource operations on devices,
    groups and blocks, and the realtime room manager built on a Phoenix
    socket; followed by the properties of the client's specification. *)

From Stdlib Require Import NArith Ascii String List Lia.
From stdpp Require Import base option list strings gmap pretty.

(** * JavaScript strings and the platform functions the client calls

    A JavaScript string is represented by the bytes of its UTF-8 encoding
    (a [string] of Rocq is a list of bytes).  [encodeURIComponent] and the
    URL parser both work on that encoding, one byte at a time.  A string
    holding an unpaired surrogate, on which [encodeURIComponent] throws a
    URIError, has no such encoding and is outside the model. *)

Module Js.
Local Open Scope N_scope.

(** [!s] on a string: only the empty string is falsy. *)
Definition falsy (s : string) : bool :=
  match s with EmptyString => true | String _ _ => false end.

Definition code (c : ascii) : N := N_of_ascii c.

Definition in_range (lo hi : N) (c : ascii) : bool :=
  (lo <=? code c) && (code c <=? hi).

Definition is_upper : ascii → bool := in_range 65 90.
Definition is_lower : ascii → bool := in_range 97 122.
Definition is_digit : ascii → bool := in_range 48 57.
Definition is_alpha (c : ascii) : bool := is_upper c || is_lower c.
Definition is_alnum (c : ascii) : bool := is_alpha c || is_digit c.

Fixpoint mem (c : ascii) (set : string) : bool :=
  match set with
  | EmptyString => false
  | String d set' => if Ascii.eqb c d then true else mem c set'
  end.

(** [all p s]: every byte of [s] satisfies [p]. *)
Fixpoint all (p : ascii → bool) (s : string) : bool :=
  match s with
  | EmptyString => true
  | String c s' => p c && all p s'
  end.

(** ECMAScript's uriUnescaped: uriAlpha, DecimalDigit and uriMark. *)
Definition uriMark : string := "-_.!~*'()".
Definition uriUnescaped (c : ascii) : bool := is_alnum c || mem c uriMark.

Definition hex_digit (n : N) : ascii :=
  match String.get (N.to_nat n) "0123456789ABCDEF" with
  | Some d => d
  | None => "0"%char
  end.

(** The escape of one octet: a percent sign and two upper-case hex digits. *)
Definition pct_escape (c : ascii) : string :=
  String "%" (String (hex_digit (code c / 16))
             (String (hex_digit (code c mod 16)) EmptyString)).

(** [encodeURIComponent]: every octet of the UTF-8 encoding is escaped,
    except the characters of uriUnescaped, which are kept. *)
Fixpoint encodeURIComponent (s : string) : string :=
  match s with
  | EmptyString => EmptyString
  | String c s' =>
      if uriUnescaped c then String c (encodeURIComponent s')
      else pct_escape c +:+ encodeURIComponent s'
  end.

Definition hex_value (c : ascii) : option N :=
  if is_digit c then Some (code c - 48)
  else if in_range 65 70 c then Some (code c - 55)
  else if in_range 97 102 c then Some (code c - 87)
  else None.

(** Percent-decoding of a byte sequence (URL Standard, "percent-decode";
    RFC 3986 section 2.1): a percent sign followed by two hex digits is
    the octet they denote, any other byte stands for itself.  It is what
    [URLSearchParams] applies to names and values, and it is the
    decoding pass that a receiver of the request applies to a path
    segment. *)
Fixpoint percent_decode (s : string) : string :=
  match s with
  | EmptyString => EmptyString
  | String c s' =>
      if Ascii.eqb c "%" then
        match s' with
        | String h (String l rest) =>
            match hex_value h, hex_value l with
            | Some a, Some b =>
                String (ascii_of_N (16 * a + b)) (percent_decode rest)
            | _, _ => String c (percent_decode s')
            end
        | _ => String c (percent_decode s')
        end
      else String c (percent_decode s')
  end.

(** ** Property names that every plain object answers to

    [this.joinedChannels] is a plain object ([{}]): reading a property
    that the object does not own finds the one of that name on
    [Object.prototype], if there is one.  All of them are truthy (they
    are functions, and [__proto__] is [Object.prototype] itself). *)
Definition Object_prototype : list string :=
  ["constructor"; "__defineGetter__"; "__defineSetter__"; "hasOwnProperty";
   "__lookupGetter__"; "__lookupSetter__"; "isPrototypeOf";
   "propertyIsEnumerable"; "toString"; "valueOf"; "__proto__";
   "toLocaleString"].

Definition inherited (name : string) : bool :=
  bool_decide (name ∈ Object_prototype).

(** ** Numbers

    [Number.prototype.toString] on the Number value of a non-negative
    integer numeral.  The value is the nearest double, ties going to the
    even significand; it is written with the fewest digits that read
    back as the same double, the closest such decimal and the even one
    of two, and in exponent form from [1e21] on.  Below [2 ^ 53] the
    value is the integer and its digits are all of them. *)

(** The Number value, [None] for [Infinity]. *)
Definition to_double (n : N) : option N :=
  if n <? 2 ^ 53 then Some n
  else
    let e := N.log2 n - 52 in
    let m := n / 2 ^ e in
    let r := n mod 2 ^ e in
    let half := 2 ^ (e - 1) in
    let m := if (half <? r) || ((r =? half) && N.odd m) then m + 1 else m in
    if 2 ^ 1024 <=? m * 2 ^ e then None else Some (m * 2 ^ e).

(** Four times the bounds of the reals that round to the double [v],
    and whether the bounds themselves do. *)
Definition rounding_interval (v : N) : N * N * bool :=
  let e := N.log2 v - 52 in
  let m := v / 2 ^ e in
  let below := if m =? 2 ^ 52 then 2 ^ e else 2 * 2 ^ e in
  (4 * v - below, 4 * v + 2 * 2 ^ e, N.even m).

Definition rounds_to (v x : N) : bool :=
  let '(low, high, closed) := rounding_interval v in
  if closed then (low <=? 4 * x) && (4 * x <=? high)
  else (low <? 4 * x) && (4 * x <? high).

Definition decimal_digits (n : N) : N := N.of_nat (String.length (pretty n)).

(** The decimal [s * 10 ^ z] of [k] digits or more that rounds to [v]. *)
Fixpoint shortest (fuel : nat) (v : N) (k : N) : N * N :=
  match fuel with
  | O => (v, 0)
  | S fuel' =>
      let z := decimal_digits v - k in
      let s := v / 10 ^ z in
      let lower := rounds_to v (s * 10 ^ z) in
      let upper := rounds_to v ((s + 1) * 10 ^ z) in
      let d_lower := v - s * 10 ^ z in
      let d_upper := (s + 1) * 10 ^ z - v in
      if lower && upper then
        if d_lower <? d_upper then (s, z)
        else if d_upper <? d_lower then (s + 1, z)
        else if N.even s then (s, z) else (s + 1, z)
      else if lower then (s, z)
      else if upper then (s + 1, z)
      else shortest fuel' v (k + 1)
  end.

(** The zeros at the end of [s] go to the exponent. *)
Fixpoint normalize (fuel : nat) (s z : N) : N * N :=
  match fuel with
  | O => (s, z)
  | S fuel' =>
      if (s mod 10 =? 0) && (0 <? s) then normalize fuel' (s / 10) (z + 1)
      else (s, z)
  end.

Fixpoint zeros (n : nat) : string :=
  match n with O => EmptyString | S n' => String "0" (zeros n') end.

Definition Number_toString (n : N) : string :=
  match to_double n with
  | None => "Infinity"
  | Some v =>
      if v <? 2 ^ 53 then pretty v
      else
        let '(s, z) := shortest 17 v 1 in
        let '(s, z) := normalize 17 s z in
        let point := decimal_digits s + z in
        if point <=? 21 then pretty s +:+ zeros (N.to_nat z)
        else
          match pretty s with
          | String d EmptyString => String d ("e+" +:+ pretty (point - 1))
          | String d rest =>
              String d ("." +:+ rest +:+ "e+" +:+ pretty (point - 1))
          | EmptyString => EmptyString
          end
  end.

End Js.

(** * URLs (the platform's [URL] class)

    The part of the URL Standard's parser that the client exercises: a
    reference resolved against a base URL with a special scheme (http,
    https, ws, wss), its serialisation, and the [search] and [protocol]
    setters.  The authority is kept as an opaque string; a reference that
    carries its own scheme, or starts with two slashes, is outside this
    fragment (the endpoint table never builds one, see
    [relative_path_reference]). *)

Module URL.
Import Js.
Local Open Scope N_scope.

Record t := mk {
  scheme : string;
  authority : string;
  path : list string;
  query : option string;
  fragment : option string;
}.

Definition quote : ascii := "034"%char.
Definition backslash : ascii := "092"%char.

(** The percent-encode sets of the URL Standard. *)
Definition c0_control_set (c : ascii) : bool :=
  (code c <=? 31) || (126 <? code c).
Definition fragment_set (c : ascii) : bool :=
  c0_control_set c || mem c (String quote " <>`").
Definition query_set (c : ascii) : bool :=
  c0_control_set c || mem c (String quote " #<>").
Definition special_query_set (c : ascii) : bool :=
  query_set c || Ascii.eqb c "'".
Definition path_set (c : ascii) : bool :=
  query_set c || mem c "?^`{}".

Definition encode_char (set : ascii → bool) (c : ascii) : string :=
  if set c then pct_escape c else String c EmptyString.

Fixpoint encode (set : ascii → bool) (s : string) : string :=
  match s with
  | EmptyString => EmptyString
  | String c s' => encode_char set c +:+ encode set s'
  end.

(** Input preparation: leading and trailing C0 controls and spaces are
    stripped, tabs and newlines are removed everywhere. *)
Definition c0_control_or_space (c : ascii) : bool := code c <=? 32.
Definition tab_or_newline (c : ascii) : bool :=
  (code c =? 9) || (code c =? 10) || (code c =? 13).

Fixpoint strip_leading (s : string) : string :=
  match s with
  | EmptyString => EmptyString
  | String c s' => if c0_control_or_space c then strip_leading s' else s
  end.

Fixpoint strip_trailing (s : string) : string :=
  match s with
  | EmptyString => EmptyString
  | String c s' =>
      match strip_trailing s' with
      | EmptyString =>
          if c0_control_or_space c then EmptyString else String c EmptyString
      | r => String c r
      end
  end.

Fixpoint remove_tab_newline (s : string) : string :=
  match s with
  | EmptyString => EmptyString
  | String c s' =>
      if tab_or_newline c then remove_tab_newline s'
      else String c (remove_tab_newline s')
  end.

(** Bytes that the preparation keeps wherever they are: everything but
    C0 controls and spaces. *)
Definition kept (c : ascii) : bool := negb (c0_control_or_space c).

Definition prepare (s : string) : string :=
  remove_tab_newline (strip_trailing (strip_leading s)).

(** Dot segments, compared ASCII case-insensitively. *)
Definition lower (c : ascii) : ascii :=
  if is_upper c then ascii_of_N (code c + 32) else c.

Fixpoint lowercase (s : string) : string :=
  match s with
  | EmptyString => EmptyString
  | String c s' => String (lower c) (lowercase s')
  end.

Definition single_dot (buffer : string) : bool :=
  let b := lowercase buffer in
  String.eqb b "." || String.eqb b "%2e".

Definition double_dot (buffer : string) : bool :=
  let b := lowercase buffer in
  String.eqb b ".." || String.eqb b ".%2e"
  || String.eqb b "%2e." || String.eqb b "%2e%2e".

Definition special (sch : string) : bool :=
  String.eqb sch "http" || String.eqb sch "https"
  || String.eqb sch "ws" || String.eqb sch "wss"
  || String.eqb sch "ftp" || String.eqb sch "file".

(** A byte that the path state copies to the segment as it is: not a
    separator and not in the path percent-encode set. *)
Definition segment_char (c : ascii) : bool :=
  negb (path_set c || Ascii.eqb c "/" || Ascii.eqb c backslash).

(** A path segment that the parser leaves as it is: such bytes only,
    and not a dot segment. *)
Definition plain_segment (s : string) : bool :=
  all segment_char s && negb (single_dot s) && negb (double_dot s).

(** "Shorten a path": the last segment, if any, is removed. *)
Definition shorten (p : list string) : list string := removelast p.

(** The end of a path segment.  [slash] tells whether the segment was
    closed by a slash (rather than by the end of the path). *)
Definition close_segment (p : list string) (buffer : string) (slash : bool)
  : list string :=
  if double_dot buffer then
    if slash then shorten p else shorten p ++ [EmptyString]
  else if single_dot buffer then
    if slash then p else p ++ [EmptyString]
  else p ++ [buffer].

(** Fragment state. *)
Definition fragment_state (input : string) : string := encode fragment_set input.

(** Query state: up to a number sign, after which the fragment starts. *)
Fixpoint query_state (input buffer : string) : string * option string :=
  match input with
  | EmptyString => (buffer, None)
  | String c rest =>
      if Ascii.eqb c "#" then (buffer, Some (fragment_state rest))
      else query_state rest (buffer +:+ encode_char special_query_set c)
  end.

(** Path state of a URL with a special scheme: slash and backslash close
    a segment, a question mark or a number sign closes the path. *)
Fixpoint path_state (input : string) (p : list string) (buffer : string)
  : list string * option string * option string :=
  match input with
  | EmptyString => (close_segment p buffer false, None, None)
  | String c rest =>
      if Ascii.eqb c "/" || Ascii.eqb c backslash then
        path_state rest (close_segment p buffer true) EmptyString
      else if Ascii.eqb c "?" then
        let '(q, f) := query_state rest EmptyString in
        (close_segment p buffer false, Some q, f)
      else if Ascii.eqb c "#" then
        (close_segment p buffer false, None, Some (fragment_state rest))
      else path_state rest p (buffer +:+ encode_char path_set c)
  end.

(** A scheme prefix: a letter, then letters, digits, plus, minus or
    dot, then a colon. *)
Fixpoint scheme_tail (s : string) : bool :=
  match s with
  | EmptyString => false
  | String c s' =>
      if Ascii.eqb c ":" then true
      else if is_alnum c || mem c "+-." then scheme_tail s'
      else false
  end.

Definition has_scheme (s : string) : bool :=
  match s with
  | EmptyString => false
  | String c s' => is_alpha c && scheme_tail s'
  end.

(** The references this fragment covers: no scheme of their own, no
    leading slash or backslash. *)
Definition relative_path_reference (input : string) : bool :=
  match prepare input with
  | EmptyString => true
  | String c _ as s =>
      negb (has_scheme s) && negb (Ascii.eqb c "/" || Ascii.eqb c backslash)
  end.

(** [new URL(input, base)] for such a reference (relative state, then
    path state). *)
Definition resolve (input : string) (base : t) : t :=
  match prepare input with
  | EmptyString =>
      mk (scheme base) (authority base) (path base) (query base) None
  | String c rest as s =>
      if Ascii.eqb c "?" then
        let '(q, f) := query_state rest EmptyString in
        mk (scheme base) (authority base) (path base) (Some q) f
      else if Ascii.eqb c "#" then
        mk (scheme base) (authority base) (path base) (query base)
           (Some (fragment_state rest))
      else
        let '(p, q, f) := path_state s (shorten (path base)) EmptyString in
        mk (scheme base) (authority base) p q f
  end.

Fixpoint serialize_path (p : list string) : string :=
  match p with
  | [] => EmptyString
  | seg :: p' => "/" +:+ seg +:+ serialize_path p'
  end.

(** [url.toString()], the href. *)
Definition toString (u : t) : string :=
  scheme u +:+ "://" +:+ authority u +:+ serialize_path (path u)
  +:+ match query u with Some q => "?" +:+ q | None => EmptyString end
  +:+ match fragment u with Some f => "#" +:+ f | None => EmptyString end.

(** [url.search = value]. *)
Definition set_search (value : string) (u : t) : t :=
  match value with
  | EmptyString => mk (scheme u) (authority u) (path u) None (fragment u)
  | String c rest =>
      let input := if Ascii.eqb c "?" then rest else value in
      mk (scheme u) (authority u) (path u)
         (Some (encode special_query_set (remove_tab_newline input)))
         (fragment u)
  end.

(** [url.protocol = value] between two special schemes. *)
Definition set_protocol (sch : string) (u : t) : t :=
  if special (scheme u) && special sch
  then mk sch (authority u) (path u) (query u) (fragment u)
  else u.

End URL.

(** * URLSearchParams (application/x-www-form-urlencoded) *)

Module URLSearchParams.
Import Js.

(** Splitting on a separator byte; two separators in a row give an
    empty piece. *)
Fixpoint split (sep : ascii) (s : string) : list string :=
  match s with
  | EmptyString => [EmptyString]
  | String c s' =>
      if Ascii.eqb c sep then EmptyString :: split sep s'
      else match split sep s' with
           | [] => [String c EmptyString]
           | piece :: pieces => String c piece :: pieces
           end
  end.

(** Name and value of one piece: cut at the first equals sign. *)
Fixpoint cut (s : string) : string * string :=
  match s with
  | EmptyString => (EmptyString, EmptyString)
  | String c s' =>
      if Ascii.eqb c "=" then (EmptyString, s')
      else let '(n, v) := cut s' in (String c n, v)
  end.

Fixpoint plus_to_space (s : string) : string :=
  match s with
  | EmptyString => EmptyString
  | String c s' =>
      String (if Ascii.eqb c "+" then " "%char else c) (plus_to_space s')
  end.

Definition decode (s : string) : string := percent_decode (plus_to_space s).

(** The urlencoded parser: empty pieces are skipped. *)
Definition parse_pieces (pieces : list string) : list (string * string) :=
  omap (λ piece,
          match piece with
          | EmptyString => None
          | _ => let '(n, v) := cut piece in Some (decode n, decode v)
          end) pieces.

(** [new URLSearchParams(init)] for a string; [None] is [undefined],
    for which the list is empty.  One leading question mark is dropped. *)
Definition of_string (init : option string) : list (string * string) :=
  match init with
  | None => []
  | Some s =>
      let s := match s with
               | String c s' => if Ascii.eqb c "?" then s' else s
               | EmptyString => s
               end in
      parse_pieces (split "&" s)
  end.

(** [params.get(name)]: the value of the first pair with that name,
    [None] for [null]. *)
Fixpoint get (name : string) (l : list (string * string)) : option string :=
  match l with
  | [] => None
  | (n, v) :: l' => if String.eqb n name then Some v else get name l'
  end.

(** The urlencoded serializer. *)
Definition urlencoded_keep (c : ascii) : bool := is_alnum c || mem c "*-._".

Fixpoint serialize_bytes (s : string) : string :=
  match s with
  | EmptyString => EmptyString
  | String c s' =>
      (if Ascii.eqb c " " then "+"
       else if urlencoded_keep c then String c EmptyString
       else pct_escape c) +:+ serialize_bytes s'
  end.

Fixpoint toString (l : list (string * string)) : string :=
  match l with
  | [] => EmptyString
  | (n, v) :: l' =>
      serialize_bytes n +:+ "=" +:+ serialize_bytes v
      +:+ match l' with [] => EmptyString | _ => "&" +:+ toString l' end
  end.

(** The bytes that the serializer writes for a name or a value, those of
    a whole query string, and one pair of a serialized query. *)
Definition urlencoded_byte (c : ascii) : bool := is_alnum c || mem c "*-._+%".
Definition query_byte (c : ascii) : bool := urlencoded_byte c || mem c "=&".

Definition piece (p : string * string) : string :=
  serialize_bytes (fst p) +:+ "=" +:+ serialize_bytes (snd p).

End URLSearchParams.

(** * Errors, promises and the collaborators of the client *)

Inductive JsError :=
| Error (message : string)
| TypeError (message : string)
| RequestFailed (description : string)
| ChannelError (reply : string).

(** How a promise settles. *)
Inductive Outcome (A : Type) :=
| Resolved (a : A)
| Rejected (e : JsError).
Arguments Resolved {A} a.
Arguments Rejected {A} e.

(** The wire format of a block.  A custom block carries [source], a
    built-in one [beam_module]. *)
Module AstarteBlockDTO.
Record t := mk {
  name : string;
  type : string;
  schema : string;
  source : option string;
  beam_module : option string;
}.
End AstarteBlockDTO.

(** A custom block, as NewBlockPage.js builds it for [registerBlock]. *)
Module AstarteCustomBlock.
Record t := mk {
  name : string;
  source : string;
  type : string;
  schema : string;
}.
End AstarteCustomBlock.

(** What client.ts imports from modules that are not part of this
    development: the DTO transforms of ./transforms and ./models/Block,
    and the built-in blocks of ./definitions. *)
Class Imports := {
  AstarteDeviceDTO : Type;
  AstarteDevice : Type;
  fromAstarteDeviceDTO : AstarteDeviceDTO → AstarteDevice;
  AstarteBlock : Type;
  toAstarteBlock : AstarteBlockDTO.t → AstarteBlock;
  definitions_blocks : list AstarteBlockDTO.t;
  AstarteTransientTriggerDTO : Type;
}.

(** * Lodash *)

Module Lodash.

(** [_.zip] of two arrays whose elements may be [undefined] ([None]):
    the shorter array is padded with [undefined]. *)
Fixpoint zip {A} (l k : list (option A)) : list (option A * option A) :=
  match l, k with
  | [], _ => map (λ b, (None, b)) k
  | a :: l', [] => (a, None) :: zip l' []
  | a :: l', b :: k' => (a, b) :: zip l' k'
  end.

(** [_.flatten] of an array of pairs. *)
Fixpoint flatten {A} (l : list (A * A)) : list A :=
  match l with
  | [] => []
  | (a, b) :: l' => a :: b :: flatten l'
  end.

(** [_.uniqBy]: the first element of each key is kept, in order. *)
Fixpoint uniqBy_from {A} (key : A → string) (seen : list string) (l : list A)
  : list A :=
  match l with
  | [] => []
  | x :: l' =>
      if bool_decide (key x ∈ seen) then uniqBy_from key seen l'
      else x :: uniqBy_from key (key x :: seen) l'
  end.

Definition uniqBy {A} (l : list A) (key : A → string) : list A :=
  uniqBy_from key [] l.

End Lodash.

(** [array.join('')] on strings and [undefined]s. *)
Fixpoint join (l : list (option string)) : string :=
  match l with
  | [] => EmptyString
  | Some s :: l' => s +:+ join l'
  | None :: l' => join l'
  end.

(** [astarteAPIurl]: the tagged template.  [strings] are the literal
    parts, the first interpolation is the base URL and the others are the
    names of the parameters.  [endpointUrl] is the relative reference
    that the literals and the values of the parameters make. *)
Definition endpointUrl (strings : list string) (keys : list string)
    (params : gmap string string) : string :=
  let values := map (λ key, params !! key) keys in
  join (Lodash.flatten (Lodash.zip (map Some (tail strings)) values)).

(** The URL object whose [toString()] the template function returns.  A
    caller that hands the string to [new URL] again gets this object back
    (parsing a serialised URL gives the same record), so the embedding
    passes the record itself. *)
Definition astarteAPIurl (strings : list string) (baseUrl : URL.t)
    (keys : list string) (params : gmap string string) : URL.t :=
  URL.resolve (endpointUrl strings keys params) baseUrl.

(** * The client object *)

(** A Phoenix socket and a channel opened on it.  [ref] is the position,
    in the log of calls made to the phoenix library, of the call that
    created the object: it is the object's identity. *)
Module Socket.
Record t := mk {
  ref : nat;
  socketUrl : string;
  realm : string;
  token : string;
}.
End Socket.

Module Channel.
Record t := mk {
  ref : nat;
  socket : Socket.t;
  topic : string;
}.
End Channel.

Record AstarteClientConfig := {
  appEngineApiUrl : URL.t;
  flowApiUrl : URL.t;
  pairingApiUrl : URL.t;
  realmManagementApiUrl : URL.t;
  config_realm : option string;
  config_token : option string;
}.

(** The fields of [AstarteClient].  [urls] stands for the base URLs that
    the closures of [apiConfig] capture; a listener is named by a number,
    its identity. *)
Record AstarteClient := {
  realm : string;
  token : string;
  urls : AstarteClientConfig;
  phoenixSocket : option Socket.t;
  joinedChannels : gmap string Channel.t;
  listeners : gmap string (list nat);
}.

(** [config.realm || ''] *)
Definition or_empty (s : option string) : string := default EmptyString s.

Definition constructor (config : AstarteClientConfig) : AstarteClient := {|
  realm := or_empty (config_realm config);
  token := or_empty (config_token config);
  urls := config;
  phoenixSocket := None;
  joinedChannels := ∅;
  listeners := ∅;
|}.

(** [this.config], spread into the parameters of an endpoint. *)
Definition config (this : AstarteClient) : gmap string string :=
  {[ "realm" := realm this ]}.

(** The entries of [apiConfig] used below. *)
Module apiConfig.
Definition devices (this : AstarteClient) :=
  astarteAPIurl [""; "v1/"; "/devices"]
    (appEngineApiUrl (urls this)) ["realm"].
Definition groupDevices (this : AstarteClient) :=
  astarteAPIurl [""; "v1/"; "/groups/"; "/devices"]
    (appEngineApiUrl (urls this)) ["realm"; "groupName"].
Definition deviceInGroup (this : AstarteClient) :=
  astarteAPIurl [""; "v1/"; "/groups/"; "/devices/"; ""]
    (appEngineApiUrl (urls this)) ["realm"; "groupName"; "deviceId"].
Definition phoenixSocket (this : AstarteClient) :=
  astarteAPIurl [""; "v1/socket"] (appEngineApiUrl (urls this)) [].
Definition blocks (this : AstarteClient) :=
  astarteAPIurl [""; "v1/"; "/blocks"] (flowApiUrl (urls this)) ["realm"].
Definition blockSource (this : AstarteClient) :=
  astarteAPIurl [""; "v1/"; "/blocks/"; ""]
    (flowApiUrl (urls this)) ["realm"; "blockId"].
Definition realmManagementHealth (this : AstarteClient) :=
  astarteAPIurl [""; "health"] (realmManagementApiUrl (urls this)) [].
Definition appengineHealth (this : AstarteClient) :=
  astarteAPIurl [""; "health"] (appEngineApiUrl (urls this)) [].
Definition pairingHealth (this : AstarteClient) :=
  astarteAPIurl [""; "health"] (pairingApiUrl (urls this)) [].
Definition flowHealth (this : AstarteClient) :=
  astarteAPIurl [""; "health"] (flowApiUrl (urls this)) [].
Definition trigger (this : AstarteClient) :=
  astarteAPIurl [""; "v1/"; "/triggers/"; ""]
    (realmManagementApiUrl (urls this)) ["realm"; "triggerName"].
Definition policy (this : AstarteClient) :=
  astarteAPIurl [""; "v1/"; "/policies/"; ""]
    (realmManagementApiUrl (urls this)) ["realm"; "policyName"].
Definition device (this : AstarteClient) :=
  astarteAPIurl [""; "v1/"; "/devices/"; ""]
    (realmManagementApiUrl (urls this)) ["realm"; "deviceId"].
Definition deviceAgent (this : AstarteClient) :=
  astarteAPIurl [""; "v1/"; "/agent/devices/"; ""]
    (pairingApiUrl (urls this)) ["realm"; "deviceId"].
Definition flowInstance (this : AstarteClient) :=
  astarteAPIurl [""; "v1/"; "/flows/"; ""]
    (flowApiUrl (urls this)) ["realm"; "instanceName"].
Definition pipelineSource (this : AstarteClient) :=
  astarteAPIurl [""; "v1/"; "/pipelines/"; ""]
    (flowApiUrl (urls this)) ["realm"; "pipelineId"].
End apiConfig.

(** * Authenticated requests *)

Inductive Method := GET | POST | PUT | PATCH | DELETE.

Section Requests.
Context `{Imports}.

(** The payloads that travel in the [data] field of the envelope. *)
Inductive Body :=
| Nothing
| Block (b : AstarteBlockDTO.t)
| Blocks (l : list AstarteBlockDTO.t)
| CustomBlock (b : AstarteCustomBlock.t)
| Devices (l : list AstarteDeviceDTO)
| DeviceId (device_id : string).

Record Links := { self : option string; next : option string }.

(** The JSON body of a successful response: what [$get] resolves to. *)
Record Response := {
  response_data : Body;
  response_links : option Links;
}.

(** One call of [axios]. *)
Record Request := {
  method : Method;
  url : string;
  Authorization : string;
  Content_Type : string;
  request_data : option Body;
}.

(** The backend: what [axios] settles to for a request, given the
    requests made before it. *)
Definition Server : Type := list Request → Request → Outcome Response.

(** An asynchronous operation of the client: it runs against a backend,
    extends the log of the requests made and settles. *)
Definition Http (A : Type) : Type :=
  Server → list Request → Outcome A * list Request.

Definition resolve {A} (a : A) : Http A := λ _ log, (Resolved a, log).
Definition throw {A} (e : JsError) : Http A := λ _ log, (Rejected e, log).

(** [await]: a rejection of the awaited promise rejects the caller. *)
Definition await {A B} (m : Http A) (k : A → Http B) : Http B :=
  λ server log,
    match m server log with
    | (Resolved a, log') => k a server log'
    | (Rejected e, log') => (Rejected e, log')
    end.

Definition axios (r : Request) : Http Response :=
  λ server log, (server log r, log ++ [r]).

#[global] Instance Http_bind : MBind Http := λ A B k m, await m k.

(** * The request helpers: [$get], [$post], [$put], [$patch], [$delete] *)

Definition json : string := "application/json;charset=UTF-8".
Definition merge_patch : string := "application/merge-patch+json".

Definition bearer (this : AstarteClient) : string := "Bearer " +:+ token this.

(** The argument of [axios] in each helper: the bearer token of the
    client, the content type, and the payload wrapped in [{ data }]. *)
Definition request (this : AstarteClient) (m : Method) (u : string)
    (content_type : string) (data : option Body) : Request :=
  {| method := m; url := u; Authorization := bearer this;
     Content_Type := content_type; request_data := data |}.

Definition _get (this : AstarteClient) (url : string) : Http Response :=
  axios (request this GET url json None).

Definition _post (this : AstarteClient) (url : string) (data : Body)
  : Http Response :=
  axios (request this POST url json (Some data)).

Definition _put (this : AstarteClient) (url : string) (data : Body)
  : Http Response :=
  axios (request this PUT url json (Some data)).

Definition _patch (this : AstarteClient) (url : string) (data : Body)
  : Http Response :=
  axios (request this PATCH url merge_patch (Some data)).

Definition _delete (this : AstarteClient) (url : string) : Http Response :=
  axios (request this DELETE url json None).

(** * Devices and groups *)

(** The parameters of [getDevices]; a missing field is [None].  The
    limit is the non-negative integer numeral that the caller wrote. *)
Record GetDevicesParams := {
  details : option bool;
  from : option string;
  limit : option N;
}.

(** The [query] object of [getDevices], in the order its fields are
    set: a falsy parameter (absent, [false], [0], the empty string)
    sets none. *)
Definition getDevices_query (params : GetDevicesParams)
  : list (string * string) :=
  (match details params with
   | Some true => [("details", "true")]
   | _ => []
   end)
  ++ (match limit params with
      | Some n => if (n =? 0)%N then [] else [("limit", Js.Number_toString n)]
      | None => []
      end)
  ++ (match from params with
      | Some t => if Js.falsy t then [] else [("from_token", t)]
      | None => []
      end).

(** [response.data.map(...)] throws on an answer without [data], and on
    a payload that is not a device list. *)
Definition devices_of (response : Response) : Http (list AstarteDevice) :=
  match response_data response with
  | Devices l => resolve (map fromAstarteDeviceDTO l)
  | Nothing =>
      throw (TypeError "Cannot read properties of undefined (reading 'map')")
  | _ => throw (TypeError "response.data.map is not a function")
  end.

Definition getDevices (this : AstarteClient) (params : GetDevicesParams)
  : Http (list AstarteDevice * option string) :=
  let endpointUri := apiConfig.devices this (config this) in
  let query := getDevices_query params in
  let endpointUri :=
    URL.set_search (URLSearchParams.toString query) endpointUri in
  response ← _get this (URL.toString endpointUri);
  devices ← devices_of response;
  match response_links response with
  | None =>
      throw (TypeError "Cannot read properties of undefined (reading 'next')")
  | Some links =>
      let nextToken :=
        URLSearchParams.get "from_token" (URLSearchParams.of_string (next links)) in
      resolve (devices, nextToken)
  end.

Definition getDevicesInGroup (this : AstarteClient) (groupName : string)
    (details : option bool) : Http (list AstarteDevice) :=
  if Js.falsy groupName then throw (Error "Invalid group name")
  else
    (* Double encoding to preserve the URL format when groupName contains % and / *)
    let encodedGroupName :=
      Js.encodeURIComponent (Js.encodeURIComponent groupName) in
    let endpointUri :=
      apiConfig.groupDevices this
        (<["groupName" := encodedGroupName]> (config this)) in
    let endpointUri :=
      match details with
      | Some true =>
          URL.set_search (URLSearchParams.toString [("details", "true")])
                         endpointUri
      | _ => endpointUri
      end in
    response ← _get this (URL.toString endpointUri);
    devices_of response.

Definition addDeviceToGroup (this : AstarteClient)
    (groupName deviceId : string) : Http unit :=
  if Js.falsy groupName then throw (Error "Invalid group name")
  else if Js.falsy deviceId then throw (Error "Invalid device ID")
  else
    let encodedGroupName :=
      Js.encodeURIComponent (Js.encodeURIComponent groupName) in
    _ ← _post this
          (URL.toString
             (apiConfig.groupDevices this
                (<["groupName" := encodedGroupName]> (config this))))
          (DeviceId deviceId);
    resolve ().

Definition removeDeviceFromGroup (this : AstarteClient)
    (groupName deviceId : string) : Http unit :=
  if Js.falsy groupName then throw (Error "Invalid group name")
  else if Js.falsy deviceId then throw (Error "Invalid device ID")
  else
    let encodedGroupName :=
      Js.encodeURIComponent (Js.encodeURIComponent groupName) in
    _ ← _delete this
          (URL.toString
             (apiConfig.deviceInGroup this
                (<["deviceId" := deviceId]>
                   (<["groupName" := encodedGroupName]> (config this)))));
    resolve ().

(** * Blocks *)

(** [array.includes(x)] on strings. *)
Definition includes (l : list string) (x : string) : bool :=
  bool_decide (x ∈ l).

(** [response.data as AstarteBlockDTO[]]: the cast checks nothing, and a
    payload of another shape fails at its first use. *)
Definition blocks_of (response : Response) : Http (list AstarteBlockDTO.t) :=
  match response_data response with
  | Blocks l => resolve l
  | _ => throw (TypeError "fetchedBlocks.concat is not a function")
  end.

Definition getBlocks (this : AstarteClient) : Http (list AstarteBlock) :=
  let staticBlocks := definitions_blocks in
  response ← _get this (URL.toString (apiConfig.blocks this (config this)));
  fetchedBlocks ← blocks_of response;
  let allBlocks :=
    Lodash.uniqBy (fetchedBlocks ++ staticBlocks) AstarteBlockDTO.name in
  resolve (map toAstarteBlock allBlocks).

Definition registerBlock (this : AstarteClient) (block : AstarteCustomBlock.t)
  : Http unit :=
  let staticBlocksName := map AstarteBlockDTO.name definitions_blocks in
  if includes staticBlocksName (AstarteCustomBlock.name block)
  then throw (Error "The block's name already exists")
  else
    _ ← _post this (URL.toString (apiConfig.blocks this (config this)))
                   (CustomBlock block);
    resolve ().

(** A payload that is not a block makes [toAstarteBlock] fail. *)
Definition block_of (response : Response) : Http AstarteBlockDTO.t :=
  match response_data response with
  | Block b => resolve b
  | _ => throw (TypeError "Cannot read properties of undefined")
  end.

Definition getBlock (this : AstarteClient) (blockId : string)
  : Http AstarteBlock :=
  let staticBlocksName := map AstarteBlockDTO.name definitions_blocks in
  blockDTO ←
    (if includes staticBlocksName blockId then
       match find (λ block, String.eqb (AstarteBlockDTO.name block) blockId)
                  definitions_blocks with
       | Some block => resolve block
       | None => throw (TypeError "Cannot read properties of undefined")
       end
     else
       response ← _get this
         (URL.toString
            (apiConfig.blockSource this
               (<["blockId" := blockId]> (config this))));
       block_of response);
  resolve (toAstarteBlock blockDTO).

Definition deleteBlock (this : AstarteClient) (blockId : string) : Http unit :=
  let staticBlocksName := map AstarteBlockDTO.name definitions_blocks in
  if includes staticBlocksName blockId
  then throw (Error "Cannot delete a native block")
  else
    _ ← _delete this
          (URL.toString
             (apiConfig.blockSource this
                (<["blockId" := blockId]> (config this))));
    resolve ().

(** ** What the operations settle to, given the answer of the backend *)

(** The one request of [getDevices]. *)
Definition getDevices_request (this : AstarteClient) (params : GetDevicesParams)
  : Request :=
  request this GET
    (URL.toString
       (URL.set_search (URLSearchParams.toString (getDevices_query params))
          (apiConfig.devices this (config this))))
    json None.

(** An operation that awaits one request and returns nothing. *)
Definition discard (o : Outcome Response) : Outcome unit :=
  match o with Resolved _ => Resolved () | Rejected e => Rejected e end.

(** What [getBlock] makes of the answer of the block endpoint. *)
Definition fetched_block (o : Outcome Response) : Outcome AstarteBlock :=
  match o with
  | Resolved response =>
      match response_data response with
      | Block b => Resolved (toAstarteBlock b)
      | _ => Rejected (TypeError "Cannot read properties of undefined")
      end
  | Rejected e => Rejected e
  end.

End Requests.

(** * Operations that return nothing *)

Section Deletions.
Context `{Imports}.

(** [await this.$delete(url)] or [await this.$get(url)], the answer of
    which is dropped. *)
Definition deleting (this : AstarteClient) (u : URL.t) : Http unit :=
  _ ← _delete this (URL.toString u);
  resolve ().

Definition probing (this : AstarteClient) (u : URL.t) : Http unit :=
  _ ← _get this (URL.toString u);
  resolve ().

Definition deleteTrigger (this : AstarteClient) (triggerName : string)
  : Http unit :=
  let encodedTriggerName := Js.encodeURIComponent triggerName in
  deleting this
    (apiConfig.trigger this
       (<["triggerName" := encodedTriggerName]> (config this))).

Definition deleteTriggerDeliveryPolicy (this : AstarteClient)
    (policyName : string) : Http unit :=
  deleting this
    (apiConfig.policy this (<["policyName" := policyName]> (config this))).

(** [{ deviceId, ...this.config }]: the fields of the configuration are
    spread last. *)
Definition wipeDeviceCredentials (this : AstarteClient) (deviceId : string)
  : Http unit :=
  deleting this
    (apiConfig.deviceAgent this
       (<["realm" := realm this]> {[ "deviceId" := deviceId ]})).

Definition deleteDevice (this : AstarteClient) (deviceId : string) : Http unit :=
  deleting this
    (apiConfig.device this (<["deviceId" := deviceId]> (config this))).

Definition deleteFlowInstance (this : AstarteClient) (flowName : string)
  : Http unit :=
  deleting this
    (apiConfig.flowInstance this
       (<["instanceName" := flowName]> (config this))).

Definition deletePipeline (this : AstarteClient) (pipelineId : string)
  : Http unit :=
  deleting this
    (apiConfig.pipelineSource this
       (<["pipelineId" := pipelineId]> (config this))).

Definition getRealmManagementHealth (this : AstarteClient) : Http unit :=
  probing this (apiConfig.realmManagementHealth this (config this)).

Definition getAppengineHealth (this : AstarteClient) : Http unit :=
  probing this (apiConfig.appengineHealth this (config this)).

Definition getPairingHealth (this : AstarteClient) : Http unit :=
  probing this (apiConfig.pairingHealth this (config this)).

Definition getFlowHealth (this : AstarteClient) : Http unit :=
  probing this (apiConfig.flowHealth this (config this)).

End Deletions.

(** * The name of a new block, as its form checks it (NewBlockPage.js) *)

Module NewBlockPage.
Import Js.

(** [/^[a-zA-Z][a-zA-Z0-9-_]*$/.test(name) && name !== "new"] *)
Definition isValidBlockName (name : string) : bool :=
  match name with
  | EmptyString => false
  | String c rest =>
      is_alpha c && all (λ d, is_alnum d || mem d "-_") rest
  end
  && negb (String.eqb name "new").

End NewBlockPage.

(** * The realtime room manager

    The code runs on an event loop: a call of the client runs, without
    interruption, up to the point where it waits for the phoenix library,
    and the callback it left there runs, again without interruption,
    when the socket opens or the reply to a push arrives.  The embedding
    has one function per call and one ([deliver]) for those events; each
    stands for one task of the loop, the promise reactions that the task
    leaves included.  The state they pass around holds the client's
    fields, the log of the calls made to the library, the callbacks left
    waiting and the state of every promise handed to a caller. *)

Section Realtime.
Context `{Imports}.

(** Calls to the phoenix library that reach the socket.  [SocketConnect]
    is [new Socket(...)] followed by [connect()]; [ChannelJoin] is
    [socket.channel(topic, {})], which makes a new channel object,
    followed by [join()]. *)
Inductive PhoenixCall :=
| SocketConnect (s : Socket.t)
| ChannelJoin (c : Channel.t)
| ChannelLeave (c : Channel.t)
| ChannelPush (c : Channel.t) (event : string)
              (payload : AstarteTransientTriggerDTO)
| ChannelOn (c : Channel.t) (event : string) (handler : nat).

(** What a promise of these operations resolves to: the channel for
    [joinRoom], nothing for the others.  [Prototype name] is the property
    of [Object.prototype] of that name, which [joinRoom] hands out when
    the lookup of the room finds it in place of a channel. *)
Inductive Value := Joined (c : Channel.t) | Prototype (name : string) | Void.

(** The callbacks left with the library, each with the promise that it
    settles. *)
Inductive Continuation :=
| AfterOpen (socket : Socket.t) (roomName : string) (promise : nat)
| AfterJoin (channel : Channel.t) (roomName : string) (promise : nat)
| AfterWatch (promise : nat).

Record World := {
  this : AstarteClient;
  calls : list PhoenixCall;
  waiting : gmap nat Continuation;
  promises : list (option (Outcome Value));
  fired : list nat;
}.

Definition set_this (f : AstarteClient → AstarteClient) (w : World) : World :=
  {| this := f (this w); calls := calls w; waiting := waiting w;
     promises := promises w; fired := fired w |}.

Definition set_phoenixSocket (s : option Socket.t) (c : AstarteClient)
  : AstarteClient :=
  {| realm := realm c; token := token c; urls := urls c;
     phoenixSocket := s; joinedChannels := joinedChannels c;
     listeners := listeners c |}.

Definition set_joinedChannels (m : gmap string Channel.t) (c : AstarteClient)
  : AstarteClient :=
  {| realm := realm c; token := token c; urls := urls c;
     phoenixSocket := phoenixSocket c; joinedChannels := m;
     listeners := listeners c |}.

Definition set_listeners (m : gmap string (list nat)) (c : AstarteClient)
  : AstarteClient :=
  {| realm := realm c; token := token c; urls := urls c;
     phoenixSocket := phoenixSocket c; joinedChannels := joinedChannels c;
     listeners := m |}.

Definition set_credentials (r t : string) (c : AstarteClient) : AstarteClient :=
  {| realm := r; token := t; urls := urls c;
     phoenixSocket := phoenixSocket c; joinedChannels := joinedChannels c;
     listeners := listeners c |}.

(** A call to the library, and the callback left for its answer.  The
    answer is addressed by the position of the call in the log. *)
Definition call (c : PhoenixCall) (k : Continuation) (w : World) : World :=
  {| this := this w; calls := calls w ++ [c];
     waiting := <[length (calls w) := k]> (waiting w);
     promises := promises w; fired := fired w |}.

(** A call to the library that expects no answer. *)
Definition call_only (c : PhoenixCall) (w : World) : World :=
  {| this := this w; calls := calls w ++ [c]; waiting := waiting w;
     promises := promises w; fired := fired w |}.

Definition forget (ref : nat) (w : World) : World :=
  {| this := this w; calls := calls w; waiting := delete ref (waiting w);
     promises := promises w; fired := fired w |}.

(** A fresh, pending promise. *)
Definition new_promise (w : World) : World * nat :=
  ({| this := this w; calls := calls w; waiting := waiting w;
      promises := promises w ++ [None]; fired := fired w |},
   length (promises w)).

(** Settling a promise; a promise that has settled stays as it is. *)
Definition settle (p : nat) (o : Outcome Value) (w : World) : World :=
  match promises w !! p with
  | Some None =>
      {| this := this w; calls := calls w; waiting := waiting w;
         promises := <[p := Some o]> (promises w); fired := fired w |}
  | _ => w
  end.

(** The state of a promise: [None] while it is pending. *)
Definition promise (w : World) (p : nat) : option (Outcome Value) :=
  mjoin (promises w !! p).

(** ** Connection-event listeners *)

Definition addListener (eventName : string) (callback : nat) (w : World)
  : World :=
  set_this (λ c,
    set_listeners
      (<[eventName := default [] (listeners c !! eventName) ++ [callback]]>
         (listeners c)) c) w.

Definition removeListener (eventName : string) (callback : nat) (w : World)
  : World :=
  set_this (λ c,
    match listeners c !! eventName with
    | Some previousListeners =>
        set_listeners
          (<[eventName :=
               filter (λ listener, listener ≠ callback) previousListeners]>
             (listeners c)) c
    | None => c
    end) w.

Definition dispatch (eventName : string) (w : World) : World :=
  {| this := this w; calls := calls w; waiting := waiting w;
     promises := promises w;
     fired := fired w ++ default [] (listeners (this w) !! eventName) |}.

(** [setCredentials]; [None] is [null]. *)
Definition setCredentials (params : option (string * string)) (w : World)
  : World :=
  set_this (set_credentials (or_empty (fst <$> params))
                            (or_empty (snd <$> params))) w.

(** ** Rooms *)

(** [this.joinedChannels[roomName]] finds the channel that the registry
    owns under the name, or else what [Object.prototype] has under it
    ([Js.inherited]), or else [undefined].

    [joinRoom] once [this.phoenixSocket] is known to hold a socket:
    whatever the lookup finds, or a join handshake on a new channel whose
    callback caches the channel and resolves the promise. *)
Definition joinRoom_on (phoenixSocket : Socket.t) (roomName : string)
    (p : nat) (w : World) : World :=
  match joinedChannels (this w) !! roomName with
  | Some channel => settle p (Resolved (Joined channel)) w
  | None =>
      if Js.inherited roomName then settle p (Resolved (Prototype roomName)) w
      else
        let channel :=
          Channel.mk (length (calls w)) phoenixSocket
            ("rooms:" +:+ realm (this w) +:+ ":" +:+ roomName) in
        call (ChannelJoin channel) (AfterJoin channel roomName p) w
  end.

(** [openSocketConnection], followed by what [joinRoom] chains on it:
    [resolve(this.joinRoom(roomName))]. *)
Definition openSocketConnection (roomName : string) (p : nat) (w : World)
  : World :=
  match phoenixSocket (this w) with
  | Some socket => joinRoom_on socket roomName p w
  | None =>
      let socketUrl := apiConfig.phoenixSocket (this w) (config (this w)) in
      let socketUrl :=
        URL.set_protocol
          (if String.eqb (URL.scheme socketUrl) "https" then "wss" else "ws")
          socketUrl in
      let socket :=
        Socket.mk (length (calls w)) (URL.toString socketUrl)
                  (realm (this w)) (token (this w)) in
      call (SocketConnect socket) (AfterOpen socket roomName p) w
  end.

(** The body of [joinRoom], settling promise [p]. *)
Definition joinRoom_settling (p : nat) (roomName : string) (w : World)
  : World :=
  match phoenixSocket (this w) with
  | None => openSocketConnection roomName p w
  | Some phoenixSocket => joinRoom_on phoenixSocket roomName p w
  end.

Definition joinRoom (roomName : string) (w : World) : World * nat :=
  let '(w, p) := new_promise w in
  (joinRoom_settling p roomName w, p).

(** On what the lookup inherits, the method that the operation calls is
    missing: the call throws, and the promise of the operation is
    rejected with that error. *)
Definition listenForEvents (roomName : string) (eventHandler : nat)
    (w : World) : World * nat :=
  let '(w, p) := new_promise w in
  match joinedChannels (this w) !! roomName with
  | None =>
      if Js.inherited roomName then
        (settle p (Rejected (TypeError "channel.on is not a function")) w, p)
      else
        (settle p
           (Rejected
              (Error "Can't listen for room events before joining it first"))
           w, p)
  | Some channel =>
      (settle p (Resolved Void)
         (call_only (ChannelOn channel "new_event" eventHandler) w), p)
  end.

Definition registerVolatileTrigger (roomName : string)
    (triggerPayload : AstarteTransientTriggerDTO) (w : World) : World * nat :=
  let '(w, p) := new_promise w in
  match joinedChannels (this w) !! roomName with
  | None =>
      if Js.inherited roomName then
        (settle p (Rejected (TypeError "channel.push is not a function")) w, p)
      else
        (settle p
           (Rejected (Error "Room not joined, couldn't register trigger"))
           w, p)
  | Some channel =>
      (call (ChannelPush channel "watch" triggerPayload) (AfterWatch p) w, p)
  end.

(** [channel.leave()] sends the leave message and reports [ok] by
    itself, without waiting for the reply of the server: a channel that
    is leaving can push no more, and a push that cannot be made is
    answered on the spot.  The [ok] callback of [leaveChannel] has thus
    run when [leave()] returns, the deletion that [leaveRoom] chained on
    it runs in the same task, and the reply of the server, whatever it
    is, finds no callback. *)
Definition leaveRoom (roomName : string) (w : World) : World * nat :=
  let '(w, p) := new_promise w in
  match joinedChannels (this w) !! roomName with
  | None =>
      if Js.inherited roomName then
        (settle p (Rejected (TypeError "channel.leave is not a function")) w, p)
      else
        (settle p
           (Rejected (Error "Can't leave a room without joining it first"))
           w, p)
  | Some channel =>
      (settle p (Resolved Void)
         (set_this (λ c,
            set_joinedChannels (delete roomName (joinedChannels c)) c)
            (call_only (ChannelLeave channel) w)), p)
  end.


(** ** What the library reports back *)

Inductive Event :=
| SocketOpened (ref : nat)
| SocketError (ref : nat)
| SocketClose (ref : nat)
| ReplyOk (ref : nat)
| ReplyError (ref : nat) (reply : string).

(** The handlers of [onError] and [onClose] exist on the sockets that
    the client made. *)
Definition is_socket (w : World) (ref : nat) : bool :=
  match calls w !! ref with
  | Some (SocketConnect _) => true
  | _ => false
  end.

(** The callback that the event wakes up, run to its end.  A callback
    runs once.  The error reply to a join handshake rejects the promise
    of [joinChannel]; the callback that [joinRoom] chained on it is not
    run, and [joinRoom] gave its own promise no way to be rejected.  The
    accepted channel is stored under the name of the room, a name that
    the lookup of [joinRoom] did not find (see [tidy] below: it is never
    a name of [Object.prototype]). *)
Definition deliver (e : Event) (w : World) : World :=
  match e with
  | SocketOpened ref =>
      match waiting w !! ref with
      | Some (AfterOpen socket roomName p) =>
          joinRoom_settling p roomName
            (set_this (set_phoenixSocket (Some socket)) (forget ref w))
      | _ => w
      end
  | SocketError ref => if is_socket w ref then dispatch "socketError" w else w
  | SocketClose ref => if is_socket w ref then dispatch "socketClose" w else w
  | ReplyOk ref =>
      match waiting w !! ref with
      | Some (AfterJoin joinedChannel roomName p) =>
          settle p (Resolved (Joined joinedChannel))
            (set_this (λ c,
               set_joinedChannels
                 (<[roomName := joinedChannel]> (joinedChannels c)) c)
               (forget ref w))
      | Some (AfterWatch p) => settle p (Resolved Void) (forget ref w)
      | _ => w
      end
  | ReplyError ref reply =>
      match waiting w !! ref with
      | Some (AfterJoin _ _ _) => forget ref w
      | Some (AfterWatch p) =>
          settle p (Rejected (ChannelError reply)) (forget ref w)
      | _ => w
      end
  end.

(** Everything that can happen to a client: its callers call it, and
    the library reports back. *)
Inductive Action :=
| JoinRoom (roomName : string)
| ListenForEvents (roomName : string) (eventHandler : nat)
| RegisterVolatileTrigger (roomName : string)
                          (triggerPayload : AstarteTransientTriggerDTO)
| LeaveRoom (roomName : string)
| AddListener (eventName : string) (callback : nat)
| RemoveListener (eventName : string) (callback : nat)
| SetCredentials (params : option (string * string))
| Deliver (e : Event).

Definition step (w : World) (a : Action) : World :=
  match a with
  | JoinRoom roomName => (joinRoom roomName w).1
  | ListenForEvents roomName h => (listenForEvents roomName h w).1
  | RegisterVolatileTrigger roomName t => (registerVolatileTrigger roomName t w).1
  | LeaveRoom roomName => (leaveRoom roomName w).1
  | AddListener e c => addListener e c w
  | RemoveListener e c => removeListener e c w
  | SetCredentials params => setCredentials params w
  | Deliver e => deliver e w
  end.

Definition steps (w : World) (l : list Action) : World := foldl step w l.

(** A client just constructed. *)
Definition boot (config : AstarteClientConfig) : World :=
  {| this := constructor config; calls := []; waiting := ∅;
     promises := []; fired := [] |}.

(** The join handshakes and the socket connections in a log. *)
Definition is_join (c : PhoenixCall) : bool :=
  match c with ChannelJoin _ => true | _ => false end.
Definition is_connect (c : PhoenixCall) : bool :=
  match c with SocketConnect _ => true | _ => false end.
Definition handshakes (w : World) : nat := length (filter is_join (calls w)).
Definition connections (w : World) : nat :=
  length (filter is_connect (calls w)).

(** The promise that a waiting callback settles. *)
Definition target (k : Continuation) : nat :=
  match k with
  | AfterOpen _ _ p | AfterJoin _ _ p | AfterWatch p => p
  end.

(** Every waiting callback is about a promise that was handed out. *)
Definition well_formed (w : World) : Prop :=
  ∀ ref k, waiting w !! ref = Some k → target k < length (promises w).

(** A promise that was handed out, is pending, and that no waiting
    callback will settle. *)
Definition orphan (w : World) (p : nat) : Prop :=
  p < length (promises w)
  ∧ promise w p = None
  ∧ ∀ ref k, waiting w !! ref = Some k → target k ≠ p.

End Realtime.

(** * States that the room manager can reach *)

Section Coherence.
Context `{Imports}.

(** The topic of a room, in some realm. *)
Definition topic_of (roomName : string) (c : Channel.t) : Prop :=
  ∃ r : string, Channel.topic c = "rooms:" +:+ r +:+ ":" +:+ roomName.

(** The socket was made by the call at its [ref]. *)
Definition connected_by (w : World) (s : Socket.t) : Prop :=
  calls w !! Socket.ref s = Some (SocketConnect s).

(** The channel was made, for the room, by the join handshake at its
    [ref], on a socket that the client made. *)
Definition joined_by (w : World) (roomName : string) (c : Channel.t) : Prop :=
  calls w !! Channel.ref c = Some (ChannelJoin c)
  ∧ topic_of roomName c
  ∧ connected_by w (Channel.socket c).

(** What holds of the socket, of the registry and of the callbacks left
    with the library. *)
Record coherent (w : World) : Prop := {
  coherent_socket :
    ∀ s, phoenixSocket (this w) = Some s → connected_by w s;
  coherent_registry :
    ∀ roomName c, joinedChannels (this w) !! roomName = Some c →
      joined_by w roomName c ∧ is_Some (phoenixSocket (this w));
  coherent_opening :
    ∀ ref s roomName p, waiting w !! ref = Some (AfterOpen s roomName p) →
      Socket.ref s = ref ∧ connected_by w s;
  coherent_joining :
    ∀ ref c roomName p, waiting w !! ref = Some (AfterJoin c roomName p) →
      Channel.ref c = ref ∧ joined_by w roomName c
      ∧ is_Some (phoenixSocket (this w));
}.


(** The client holds a socket and is opening no other. *)
Definition settled_on (w : World) (s : Socket.t) : Prop :=
  phoenixSocket (this w) = Some s
  ∧ ∀ ref s' roomName p, waiting w !! ref ≠ Some (AfterOpen s' roomName p).

End Coherence.

(** * A sample deployment

    One built-in block, the identity for the transforms, a client for the
    realm [test], used where a statement is run on concrete data. *)

Module Sample.

Definition filter_block : AstarteBlockDTO.t :=
  AstarteBlockDTO.mk "filter" "producer_consumer" "{}" None
    (Some "Elixir.Astarte.Flow.Blocks.Filter").

#[export] Instance imports : Imports := {|
  AstarteDeviceDTO := string;
  AstarteDevice := string;
  fromAstarteDeviceDTO := id;
  AstarteBlock := AstarteBlockDTO.t;
  toAstarteBlock := id;
  definitions_blocks := [filter_block];
  AstarteTransientTriggerDTO := string;
|}.

Definition appengine : URL.t :=
  URL.mk "http" "localhost:4002" ["appengine"; ""] None None.
Definition flow : URL.t :=
  URL.mk "https" "api.example.com" ["flow"; ""] None None.

Definition configuration : AstarteClientConfig := {|
  appEngineApiUrl := appengine;
  flowApiUrl := flow;
  pairingApiUrl := appengine;
  realmManagementApiUrl := appengine;
  config_realm := Some "test";
  config_token := Some "secret";
|}.

Definition client : AstarteClient := constructor configuration.

(** A custom block of the server, and one that took a built-in name. *)
Definition custom_block : AstarteBlockDTO.t :=
  AstarteBlockDTO.mk "mine" "producer" "{}" (Some "random_source") None.
Definition clashing_block : AstarteBlockDTO.t :=
  AstarteBlockDTO.mk "filter" "producer" "{}" (Some "random_source") None.

(** A backend that answers every request with the same body. *)
Definition always (body : Body) (links : option Links) : Server :=
  λ _ _, Resolved {| response_data := body; response_links := links |}.

Definition new_block (n : string) : AstarteCustomBlock.t :=
  AstarteCustomBlock.mk n "random_source" "producer" "{}".


(** The socket that the client opens, and the client once the socket is
    open and the room [lobby] is joined. *)
Definition socket : Socket.t :=
  Socket.mk 0 "ws://localhost:4002/appengine/v1/socket" "test" "secret".

Definition connected : World :=
  steps (boot configuration)
    [JoinRoom "lobby"; Deliver (SocketOpened 0); Deliver (ReplyOk 1)].

(** Two calls of [joinRoom] for one room, made before the library
    reported anything, and then the reports: both sockets open, both
    handshakes are accepted. *)
Definition two_calls : list Action := [JoinRoom "room"; JoinRoom "room"].
Definition all_accepted : list Action :=
  [Deliver (SocketOpened 0); Deliver (SocketOpened 1);
   Deliver (ReplyOk 2); Deliver (ReplyOk 3)].

(** Two pages of devices: the next link as the backend writes it, a
    path and a query that starts with the token. *)
Definition first_page : Server :=
  always (Devices ["device-1"; "device-2"])
    (Some {| self := Some "/v1/test/devices?limit=2";
             next := Some "/v1/test/devices?from_token=abc&limit=2" |}).

(** The same page asked for with details: the token is no longer the
    first parameter of the link. *)
Definition first_page_with_details : Server :=
  always (Devices ["device-1"; "device-2"])
    (Some {| self := Some "/v1/test/devices?details=true&limit=2";
             next := Some "/v1/test/devices?details=true&from_token=abc&limit=2" |}).

(** The channels of those two handshakes. *)
Definition socket' : Socket.t :=
  Socket.mk 1 "ws://localhost:4002/appengine/v1/socket" "test" "secret".
Definition channel : Channel.t := Channel.mk 2 socket "rooms:test:room".
Definition channel' : Channel.t := Channel.mk 3 socket' "rooms:test:room".

End Sample.

Import (hints) Sample.

(** * Properties *)

(** Closes a decidable goal on concrete data by evaluation. *)
Ltac by_evaluation := apply (bool_decide_unpack _); vm_compute; exact I.

(** ** Blocks *)

Section BlockProperties.
Context `{Imports}.
Implicit Types (this : AstarteClient) (server : Server) (log : list Request).

Lemma includes_spec (l : list string) (x : string) :
  includes l x = true ↔ x ∈ l.
Proof. unfold includes. apply bool_decide_eq_true. Qed.

Lemma includes_false (l : list string) (x : string) :
  includes l x = false ↔ x ∉ l.
Proof. unfold includes. apply bool_decide_eq_false. Qed.


(** *** Listing *)

Local Abbreviation named n :=
  (λ block, String.eqb (AstarteBlockDTO.name block) n).

Lemma find_app_named (l k : list AstarteBlockDTO.t) (n : string) :
  find (named n) (l ++ k)
  = match find (named n) l with
    | Some b => Some b
    | None => find (named n) k
    end.
Proof.
  induction l as [|b l IH]; simpl; [done|].
  by destruct (String.eqb _ n).
Qed.

(** [uniqBy]: the entry of a name is the first element of that name,
    unless the name was seen before. *)
Lemma uniqBy_from_find (seen : list string) (l : list AstarteBlockDTO.t) n :
  find (named n) (Lodash.uniqBy_from AstarteBlockDTO.name seen l)
  = if bool_decide (n ∈ seen) then None else find (named n) l.
Proof.
  revert seen. induction l as [|b l IH]; intros seen; simpl.
  - by case_bool_decide.
  - case_bool_decide as Hb.
    + rewrite IH. case_bool_decide as Hn; [done|].
      destruct (String.eqb_spec (AstarteBlockDTO.name b) n); [congruence|done].
    + simpl. rewrite IH.
      destruct (String.eqb_spec (AstarteBlockDTO.name b) n) as [Heq|Hne].
      * subst n. by rewrite bool_decide_eq_false_2.
      * case_bool_decide as H1; case_bool_decide as H2; try done.
        -- apply elem_of_cons in H1 as [?|?]; congruence.
        -- destruct H1. by right.
Qed.

Lemma uniqBy_from_names (seen : list string) (l : list AstarteBlockDTO.t) :
  NoDup (map AstarteBlockDTO.name (Lodash.uniqBy_from AstarteBlockDTO.name seen l))
  ∧ ∀ n, n ∈ map AstarteBlockDTO.name
               (Lodash.uniqBy_from AstarteBlockDTO.name seen l)
         ↔ n ∈ map AstarteBlockDTO.name l ∧ n ∉ seen.
Proof.
  revert seen. induction l as [|b l IH]; intros seen; simpl.
  - split; [constructor|]. intros n. split; [inversion 1|intros [Hn _]; inversion Hn].
  - case_bool_decide as Hb.
    + destruct (IH seen) as [Hnd Hiff]. split; [done|].
      intros n. rewrite Hiff, elem_of_cons.
      split; [tauto|]. intros [[->|Hn] Hs]; [done|tauto].
    + destruct (IH (AstarteBlockDTO.name b :: seen)) as [Hnd Hiff].
      simpl. split.
      * constructor; [|done]. rewrite Hiff, elem_of_cons. tauto.
      * intros n. rewrite !elem_of_cons, Hiff, elem_of_cons.
        destruct (decide (n = AstarteBlockDTO.name b)) as [->|Hne]; tauto.
Qed.

(** X22: what [getBlocks] does on a list of fetched blocks: it resolves to
    the fetched blocks followed by the built-in ones, with one entry
    per name; the entry of a name is the first block of that name, a
    fetched one when there is one. *)
Lemma getBlocks_merged this server log (fetched : list AstarteBlockDTO.t) links :
  let r := request this GET
             (URL.toString (apiConfig.blocks this (config this))) json None in
  let all := Lodash.uniqBy (fetched ++ definitions_blocks) AstarteBlockDTO.name in
  server log r = Resolved {| response_data := Blocks fetched;
                             response_links := links |} →
  getBlocks this server log = (Resolved (map toAstarteBlock all), log ++ [r])
  ∧ NoDup (map AstarteBlockDTO.name all)
  ∧ (∀ n, n ∈ map AstarteBlockDTO.name all
          ↔ n ∈ map AstarteBlockDTO.name fetched
            ∨ n ∈ map AstarteBlockDTO.name definitions_blocks)
  ∧ (∀ n, find (named n) all
          = match find (named n) fetched with
            | Some b => Some b
            | None => find (named n) definitions_blocks
            end).
Proof.
  intros r all Hserver. split; [|split; [|split]].
  - unfold getBlocks, mbind, Http_bind, await, _get, axios. simpl.
    fold r. by rewrite Hserver.
  - apply uniqBy_from_names.
  - intros n. unfold all, Lodash.uniqBy.
    rewrite (proj2 (uniqBy_from_names [] _)), map_app, elem_of_app.
    split; [tauto|]. intros Hn. split; [done|]. inversion 1.
  - intros n. unfold all, Lodash.uniqBy.
    by rewrite uniqBy_from_find, find_app_named.
Qed.

End BlockProperties.

(** C1: the built-in list holds a block named [filter]; when the
    backend lists a block of its own under that name, the entry that
    [getBlocks] returns for [filter] is the block of the backend, and the
    built-in block is not in the list. *)
Theorem getBlocks_fetched_block_shadows_builtin :
  getBlocks Sample.client
    (Sample.always (Blocks [Sample.clashing_block; Sample.custom_block]) None) []
  = (Resolved [Sample.clashing_block; Sample.custom_block],
     [request Sample.client GET "https://api.example.com/flow/v1/test/blocks"
        json None])
  ∧ Sample.filter_block ∈ definitions_blocks
  ∧ Sample.filter_block ∉ [Sample.clashing_block; Sample.custom_block].
Proof.
  split; [reflexivity|]. split; [left|].
  intros Hin. apply elem_of_cons in Hin as [Heq|Hin]; [discriminate Heq|].
  apply elem_of_cons in Hin as [Heq|Hin]; [discriminate Heq|].
  inversion Hin.
Qed.

(** ** Percent-encoding *)

Section Encoding.
Import Js.
Local Open Scope N_scope.

Lemma append_String (c : ascii) (s t : string) :
  String c s +:+ t = String c (s +:+ t).
Proof. reflexivity. Qed.

Lemma append_assoc (s t u : string) : (s +:+ t) +:+ u = s +:+ (t +:+ u).
Proof.
  induction s as [|c s IH]; [done|].
  by rewrite !append_String, IH.
Qed.

Lemma append_empty_l (s : string) : "" +:+ s = s.
Proof. reflexivity. Qed.

Lemma append_empty_r (s : string) : s +:+ "" = s.
Proof. induction s as [|c s IH]; [done|]. by rewrite append_String, IH. Qed.

(** A byte is recovered from its two hex digits. *)
Lemma hex_digits_value (c : ascii) :
  hex_value (hex_digit (code c / 16)) = Some (code c / 16)
  ∧ hex_value (hex_digit (code c mod 16)) = Some (code c mod 16)
  ∧ ascii_of_N (16 * (code c / 16) + code c mod 16) = c.
Proof. destruct c as [[] [] [] [] [] [] [] []]; by vm_compute. Qed.

Lemma percent_decode_escape (c : ascii) (s : string) :
  percent_decode (pct_escape c +:+ s) = String c (percent_decode s).
Proof.
  destruct (hex_digits_value c) as (Hh & Hl & Hc).
  unfold pct_escape. rewrite !append_String. simpl.
  by rewrite Hh, Hl, Hc.
Qed.

Lemma uriUnescaped_not_percent (c : ascii) :
  uriUnescaped c = true → Ascii.eqb c "%" = false.
Proof.
  destruct (Ascii.eqb_spec c "%") as [->|]; [|done].
  by vm_compute.
Qed.

(** Decoding undoes [encodeURIComponent]. *)
Lemma percent_decode_encodeURIComponent (s : string) :
  percent_decode (encodeURIComponent s) = s.
Proof.
  induction s as [|c s IH]; [done|]. simpl.
  destruct (uriUnescaped c) eqn:Hc.
  - simpl. by rewrite (uriUnescaped_not_percent c Hc), IH.
  - by rewrite percent_decode_escape, IH.
Qed.


End Encoding.

(** ** URL resolution of plain segments *)

Section Resolution.
Import Js URL.

Lemma all_app (p : ascii → bool) (s t : string) :
  all p (s +:+ t) = all p s && all p t.
Proof.
  induction s as [|c s IH]; [done|].
  rewrite append_String. simpl. by rewrite IH, andb_assoc.
Qed.

Lemma all_impl (p q : ascii → bool) (s : string) :
  (∀ c, p c = true → q c = true) → all p s = true → all q s = true.
Proof.
  intros Hpq. induction s as [|c s IH]; [done|]. simpl.
  intros [Hc Hs]%andb_true_iff. by rewrite (Hpq c Hc), IH.
Qed.

(** What the parser does with a segment byte: nothing. *)
Lemma segment_char_inert (c : ascii) :
  segment_char c = true →
  c0_control_or_space c = false ∧ tab_or_newline c = false
  ∧ Ascii.eqb c "/" || Ascii.eqb c backslash = false
  ∧ Ascii.eqb c "?" = false ∧ Ascii.eqb c "#" = false
  ∧ encode_char path_set c = String c EmptyString.
Proof.
  destruct c as [[] [] [] [] [] [] [] []]; vm_compute; intros Hc;
    first [discriminate Hc | by repeat split].
Qed.

Lemma unescaped_segment_char (c : ascii) :
  uriUnescaped c || Ascii.eqb c "%" = true → segment_char c = true.
Proof.
  destruct c as [[] [] [] [] [] [] [] []]; vm_compute; intros Hc;
    first [discriminate Hc | done].
Qed.

Lemma pct_escape_unescaped (c : ascii) :
  all (λ d, uriUnescaped d || Ascii.eqb d "%") (pct_escape c) = true.
Proof. destruct c as [[] [] [] [] [] [] [] []]; by vm_compute. Qed.

(** [encodeURIComponent] leaves unescaped characters and percent signs
    only. *)
Lemma encodeURIComponent_unescaped (s : string) :
  all (λ d, uriUnescaped d || Ascii.eqb d "%") (encodeURIComponent s) = true.
Proof.
  induction s as [|c s IH]; [done|]. simpl.
  destruct (uriUnescaped c) eqn:Hc.
  - simpl. by rewrite Hc, IH.
  - by rewrite all_app, pct_escape_unescaped, IH.
Qed.

Lemma encodeURIComponent_segment_chars (s : string) :
  all segment_char (encodeURIComponent s) = true.
Proof.
  eapply all_impl; [apply unescaped_segment_char|].
  apply encodeURIComponent_unescaped.
Qed.

(** *** Input preparation *)

Lemma kept_not_tab_newline (c : ascii) : kept c = true → tab_or_newline c = false.
Proof.
  destruct c as [[] [] [] [] [] [] [] []]; vm_compute; intros Hc;
    first [discriminate Hc | done].
Qed.

Lemma prepare_kept (s : string) : all kept s = true → prepare s = s.
Proof.
  intros Hs. unfold prepare.
  assert (strip_leading s = s) as ->.
  { destruct s as [|c s]; [done|]. simpl in *.
    apply andb_true_iff in Hs as [Hc _]. unfold kept in Hc.
    by destruct (c0_control_or_space c). }
  assert (strip_trailing s = s) as ->.
  { induction s as [|c s IH]; [done|]. simpl in *.
    apply andb_true_iff in Hs as [Hc Hs]. rewrite (IH Hs).
    unfold kept in Hc. destruct (c0_control_or_space c); [done|]. by destruct s. }
  induction s as [|c s IH]; [done|]. simpl in *.
  apply andb_true_iff in Hs as [Hc Hs].
  by rewrite (kept_not_tab_newline c Hc), (IH Hs).
Qed.

Lemma segment_char_kept (c : ascii) : segment_char c = true → kept c = true.
Proof.
  intros Hc. unfold kept. by destruct (segment_char_inert c Hc) as (-> & _).
Qed.

(** *** Path state *)

Lemma path_state_segment (seg rest : string) (p : list string) (buffer : string) :
  all segment_char seg = true →
  path_state (seg +:+ rest) p buffer = path_state rest p (buffer +:+ seg).
Proof.
  revert buffer. induction seg as [|c seg IH]; intros buffer Hseg.
  - by rewrite append_empty_r.
  - simpl in Hseg. apply andb_true_iff in Hseg as [Hc Hseg].
    destruct (segment_char_inert c Hc) as (_ & _ & Hslash & Hq & Hn & Henc).
    rewrite append_String. simpl. rewrite Hslash, Hq, Hn, Henc.
    rewrite (IH _ Hseg), append_assoc. by rewrite append_String.
Qed.

Lemma close_segment_plain (p : list string) (seg : string) (slash : bool) :
  plain_segment seg = true → close_segment p seg slash = p ++ [seg].
Proof.
  unfold plain_segment, close_segment.
  intros [[_ Hs%negb_true_iff]%andb_true_iff Hd%negb_true_iff]%andb_true_iff.
  by rewrite Hs, Hd.
Qed.

Lemma plain_segment_chars (seg : string) :
  plain_segment seg = true → all segment_char seg = true.
Proof.
  unfold plain_segment.
  by intros [[? _]%andb_true_iff _]%andb_true_iff.
Qed.

(** The path state appends a sequence of plain segments to the path. *)
Lemma path_state_plain (segs : list string) (seg : string) (p : list string) :
  plain_segment seg = true →
  Forall (λ s, plain_segment s = true) segs →
  path_state (seg +:+ serialize_path segs) p EmptyString
  = (p ++ seg :: segs, None, None).
Proof.
  revert seg p. induction segs as [|s segs IH]; intros seg p Hseg Hsegs.
  - rewrite path_state_segment by by apply plain_segment_chars.
    simpl. by rewrite append_empty_l, close_segment_plain.
  - apply Forall_cons in Hsegs as [Hs Hsegs].
    rewrite path_state_segment by by apply plain_segment_chars.
    simpl serialize_path. rewrite !append_String. simpl.
    rewrite !append_empty_l, close_segment_plain by done.
    rewrite IH by done. by rewrite <- app_assoc.
Qed.

Lemma all_serialize_path (p : ascii → bool) (segs : list string) :
  p "/"%char = true → Forall (λ s, all p s = true) segs →
  all p (serialize_path segs) = true.
Proof.
  intros Hslash. induction 1 as [|s segs Hs _ IH]; [done|].
  simpl serialize_path. rewrite append_String. simpl.
  by rewrite append_empty_l, Hslash, all_app, Hs, IH.
Qed.

(** Resolving a relative path made of plain segments, the first of which
    is not empty: the last segment of the base path is replaced by them. *)
Lemma resolve_plain (first : string) (segs : list string) (base : URL.t) :
  first ≠ "" →
  plain_segment first = true →
  Forall (λ s, plain_segment s = true) segs →
  resolve (first +:+ serialize_path segs) base
  = mk (scheme base) (authority base)
       (shorten (path base) ++ first :: segs) None None.
Proof.
  intros Hne Hfirst Hsegs. unfold resolve.
  rewrite prepare_kept.
  2:{ rewrite all_app. apply andb_true_iff; split.
      - eapply all_impl; [apply segment_char_kept|by apply plain_segment_chars].
      - apply all_serialize_path; [done|].
        eapply Forall_impl; [exact Hsegs|]. intros s Hs. simpl.
        eapply all_impl; [apply segment_char_kept|by apply plain_segment_chars]. }
  destruct first as [|c first']; [done|].
  rewrite append_String.
  pose proof (plain_segment_chars _ Hfirst) as Hchars. simpl in Hchars.
  apply andb_true_iff in Hchars as [Hc _].
  destruct (segment_char_inert c Hc) as (_ & _ & _ & -> & -> & _).
  rewrite <- append_String.
  by rewrite path_state_plain.
Qed.

(** *** The references of the endpoint table

    Every entry of the table starts its relative reference with the
    literal [v1/] (the health checks apart): such a reference has no
    scheme of its own and no leading slash, and [resolve] is the parser's
    answer for it. *)

Lemma strip_trailing_cons (c : ascii) (s : string) :
  c0_control_or_space c = false →
  strip_trailing (String c s) = String c (strip_trailing s).
Proof. intros Hc. simpl. rewrite Hc. by destruct (strip_trailing s). Qed.

Lemma relative_reference_v1 (rest : string) :
  relative_path_reference ("v1/" +:+ rest) = true.
Proof.
  unfold relative_path_reference, prepare.
  rewrite !append_String, append_empty_l.
  cbn [strip_leading]. change (c0_control_or_space "v") with false. cbv iota.
  rewrite !strip_trailing_cons by done.
  reflexivity.
Qed.

Lemma endpoint_relative_reference (literal : string)
    (strings keys : list string) (params : gmap string string) :
  relative_path_reference
    (endpointUrl ("" :: ("v1/" +:+ literal) :: strings) keys params) = true.
Proof.
  unfold endpointUrl. cbn [tail map].
  destruct (map (λ key, params !! key) keys) as [|v values];
    cbn [Lodash.zip Lodash.flatten join];
    rewrite append_assoc; apply relative_reference_v1.
Qed.

(** *** Dot segments *)

Lemma lowercase_cons_inv (d : ascii) (rest x : string) :
  lowercase x = String d rest →
  ∃ c x', x = String c x' ∧ lower c = d ∧ lowercase x' = rest.
Proof.
  destruct x as [|c x']; simpl; [done|].
  intros [= Hc Hx]. by exists c, x'.
Qed.

Lemma lowercase_nil_inv (x : string) : lowercase x = "" → x = "".
Proof. by destruct x. Qed.

Lemma lower_inv (c d : ascii) :
  lower c = d → is_lower d = false → c = d.
Proof.
  destruct c as [[] [] [] [] [] [] [] []]; vm_compute; intros <- Hd;
    first [done | discriminate Hd].
Qed.

Lemma lower_inv_e (c : ascii) : lower c = "e"%char → c = "e"%char ∨ c = "E"%char.
Proof.
  destruct c as [[] [] [] [] [] [] [] []]; vm_compute; intros Hc;
    first [discriminate Hc | by left | by right].
Qed.




End Resolution.

(** ** Groups *)

Section GroupProperties.
Context `{Imports}.
Implicit Types (this : AstarteClient) (server : Server) (log : list Request).
Import Js.

Lemma falsy_false (s : string) : s ≠ "" → falsy s = false.
Proof. by destruct s. Qed.

(** C6: with an empty group name or an empty device ID,
    [addDeviceToGroup] and [removeDeviceFromGroup] reject with the error
    that names the argument, and the log of requests is as it was. *)
Theorem group_membership_empty_argument this (groupName deviceId : string)
    server log :
  groupName = "" ∨ deviceId = "" →
  let e := Error (if decide (groupName = "") then "Invalid group name"
                  else "Invalid device ID") in
  addDeviceToGroup this groupName deviceId server log = (Rejected e, log)
  ∧ removeDeviceFromGroup this groupName deviceId server log = (Rejected e, log).
Proof.
  intros Hempty e. unfold e, addDeviceToGroup, removeDeviceFromGroup.
  destruct (decide (groupName = "")) as [->|Hg]; [done|].
  destruct Hempty as [?| ->]; [done|].
  by rewrite (falsy_false groupName Hg).
Qed.

(** An operation that awaits one request, and makes no other, adds that
    request to the log. *)
Lemma await_axios_log {A} (r : Request) (k : Response → Http A) server log :
  (∀ response s l, (k response s l).2 = l) →
  ((axios r ≫= k) server log).2 = log ++ [r].
Proof.
  intros Hk. unfold mbind, Http_bind, await, axios.
  destruct (server log r); [apply Hk|done].
Qed.

Lemma await_axios_now {A} (r : Request) (k : Response → Http A) server log :
  (axios r ≫= k) server log
  = match server log r with
    | Resolved response => k response server (log ++ [r])
    | Rejected e => (Rejected e, log ++ [r])
    end.
Proof. unfold mbind, Http_bind, await, axios. by destruct (server log r). Qed.

Lemma devices_of_log (response : Response) server log :
  (devices_of response server log).2 = log.
Proof. unfold devices_of. by destruct (response_data response). Qed.




End GroupProperties.

(** C6, on the sample client: an empty group name. *)
Lemma group_membership_empty_argument_sample :
  ("" = "" ∨ "device" = "")
  ∧ addDeviceToGroup Sample.client "" "device" (Sample.always Nothing None) []
    = (Rejected (Error "Invalid group name"), [])
  ∧ removeDeviceFromGroup Sample.client "" "device"
      (Sample.always Nothing None) []
    = (Rejected (Error "Invalid group name"), []).
Proof.
  split; [by left|].
  apply (group_membership_empty_argument Sample.client "" "device"
           (Sample.always Nothing None) []).
  by left.
Defined.



(** Beside C4: the group name of two dots is a path segment that the URL
    parser resolves away, together with the segment before it, and the
    request goes to the device list of the realm. *)
Example getDevicesInGroup_two_dots :
  (getDevicesInGroup Sample.client ".." None
     (Sample.always (Devices []) None) []).2
  = [request Sample.client GET "http://localhost:4002/appengine/v1/test/devices"
       json None].
Proof. reflexivity. Qed.

(** ** Requests for blocks *)

Section BlockRequests.
Context `{Imports}.
Implicit Types (this : AstarteClient) (server : Server) (log : list Request).
Import Js.

(** The references that the two block entries of the table resolve. *)
Lemma blocks_reference this :
  apiConfig.blocks this (config this)
  = URL.resolve ("v1/" +:+ realm this +:+ "/blocks") (flowApiUrl (urls this)).
Proof.
  unfold apiConfig.blocks, astarteAPIurl, endpointUrl, config. cbn [map tail].
  assert (({[ "realm" := realm this ]} : gmap string string) !! "realm"
          = Some (realm this)) as -> by by simplify_map_eq.
  reflexivity.
Qed.

Lemma blockSource_reference this (blockId : string) :
  apiConfig.blockSource this (<["blockId" := blockId]> (config this))
  = URL.resolve ("v1/" +:+ realm this +:+ "/blocks/" +:+ blockId)
      (flowApiUrl (urls this)).
Proof.
  unfold apiConfig.blockSource, astarteAPIurl, endpointUrl, config.
  cbn [map tail].
  assert ((<["blockId" := blockId]> {[ "realm" := realm this ]}
             : gmap string string) !! "realm" = Some (realm this)) as ->
    by by simplify_map_eq.
  assert ((<["blockId" := blockId]> {[ "realm" := realm this ]}
             : gmap string string) !! "blockId" = Some blockId) as ->
    by by simplify_map_eq.
  cbn [Lodash.zip Lodash.flatten join].
  by rewrite append_empty_l, append_empty_r.
Qed.

Lemma blocks_url this :
  URL.plain_segment (realm this) = true →
  URL.resolve ("v1/" +:+ realm this +:+ "/blocks") (flowApiUrl (urls this))
  = URL.mk (URL.scheme (flowApiUrl (urls this)))
      (URL.authority (flowApiUrl (urls this)))
      (URL.shorten (URL.path (flowApiUrl (urls this)))
       ++ ["v1"; realm this; "blocks"]) None None.
Proof.
  intros Hrealm.
  by apply (resolve_plain "v1" [realm this; "blocks"]); [| |repeat constructor].
Qed.

Lemma blockSource_url this (blockId : string) :
  URL.plain_segment (realm this) = true →
  URL.plain_segment blockId = true →
  URL.resolve ("v1/" +:+ realm this +:+ "/blocks/" +:+ blockId)
    (flowApiUrl (urls this))
  = URL.mk (URL.scheme (flowApiUrl (urls this)))
      (URL.authority (flowApiUrl (urls this)))
      (URL.shorten (URL.path (flowApiUrl (urls this)))
       ++ ["v1"; realm this; "blocks"; blockId]) None None.
Proof.
  intros Hrealm Hid. rewrite <- (append_empty_r blockId) at 1.
  by apply (resolve_plain "v1" [realm this; "blocks"; blockId]);
    [| |repeat constructor].
Qed.

(** C7: a block that bears the name of a built-in block is refused
    with the naming-conflict error and no request is made; for any other
    name one request is made: a POST, with the bearer token of the
    client, of the block in the [data] envelope, to the URL that the
    reference [v1/realm/blocks] has against the base URL of Flow (for a
    realm that is a plain path segment: the path of the base URL without
    its last segment, then v1, the realm, blocks); the operation settles
    as the backend does. *)
Theorem registerBlock_builtin_name this (block : AstarteCustomBlock.t) server log :
  let base := flowApiUrl (urls this) in
  let r := {| method := POST;
              url := URL.toString
                       (URL.resolve ("v1/" +:+ realm this +:+ "/blocks") base);
              Authorization := "Bearer " +:+ token this;
              Content_Type := "application/json;charset=UTF-8";
              request_data := Some (CustomBlock block) |} in
  (AstarteCustomBlock.name block ∈ map AstarteBlockDTO.name definitions_blocks →
     registerBlock this block server log
     = (Rejected (Error "The block's name already exists"), log))
  ∧ (AstarteCustomBlock.name block ∉ map AstarteBlockDTO.name definitions_blocks →
     registerBlock this block server log
     = (match server log r with
        | Resolved _ => Resolved ()
        | Rejected e => Rejected e
        end, log ++ [r]))
  ∧ (URL.plain_segment (realm this) = true →
     url r = URL.toString
               (URL.mk (URL.scheme base) (URL.authority base)
                  (URL.shorten (URL.path base) ++ ["v1"; realm this; "blocks"])
                  None None)).
Proof.
  intros base r. unfold registerBlock. split; [|split].
  - intros Hname. apply includes_spec in Hname. by rewrite Hname.
  - intros Hname. apply includes_false in Hname. rewrite Hname.
    rewrite blocks_reference. unfold _post. rewrite await_axios_now.
    unfold request, bearer, json. fold base. fold r. by destruct (server log r).
  - intros Hrealm. unfold r, base. cbn [url]. by rewrite blocks_url.
Qed.

(** C8: deleting under the name of a built-in block is refused and no
    request is made; for any other name exactly one request is made: a
    DELETE, with the bearer token of the client and no payload, to the
    URL that the reference [v1/realm/blocks/ID] has against the base URL
    of Flow (for a realm and an ID that are plain path segments: the path
    of the base URL without its last segment, then v1, the realm, blocks,
    the ID); the operation settles as the backend does. *)
Theorem deleteBlock_builtin_name this (blockId : string) server log :
  let base := flowApiUrl (urls this) in
  let r := {| method := DELETE;
              url := URL.toString
                       (URL.resolve
                          ("v1/" +:+ realm this +:+ "/blocks/" +:+ blockId) base);
              Authorization := "Bearer " +:+ token this;
              Content_Type := "application/json;charset=UTF-8";
              request_data := None |} in
  (blockId ∈ map AstarteBlockDTO.name definitions_blocks →
     deleteBlock this blockId server log
     = (Rejected (Error "Cannot delete a native block"), log))
  ∧ (blockId ∉ map AstarteBlockDTO.name definitions_blocks →
     deleteBlock this blockId server log
     = (match server log r with
        | Resolved _ => Resolved ()
        | Rejected e => Rejected e
        end, log ++ [r]))
  ∧ (URL.plain_segment (realm this) = true →
     URL.plain_segment blockId = true →
     url r = URL.toString
               (URL.mk (URL.scheme base) (URL.authority base)
                  (URL.shorten (URL.path base)
                   ++ ["v1"; realm this; "blocks"; blockId])
                  None None)).
Proof.
  intros base r. unfold deleteBlock. split; [|split].
  - intros Hname. apply includes_spec in Hname. by rewrite Hname.
  - intros Hname. apply includes_false in Hname. rewrite Hname.
    rewrite blockSource_reference. unfold _delete. rewrite await_axios_now.
    unfold request, bearer, json. fold base. fold r. by destruct (server log r).
  - intros Hrealm Hid. unfold r, base. cbn [url]. by rewrite blockSource_url.
Qed.


End BlockRequests.

(** C7, on the sample client: [filter] is a built-in name, [mine] is not. *)
Lemma registerBlock_builtin_name_sample :
  registerBlock Sample.client (Sample.new_block "filter")
    (Sample.always Nothing None) []
  = (Rejected (Error "The block's name already exists"), [])
  ∧ registerBlock Sample.client (Sample.new_block "mine")
      (Sample.always Nothing None) []
    = (Resolved (),
       [{| method := POST;
           url := "https://api.example.com/flow/v1/test/blocks";
           Authorization := "Bearer secret";
           Content_Type := "application/json;charset=UTF-8";
           request_data := Some (CustomBlock (Sample.new_block "mine")) |}]).
Proof.
  split.
  - apply (proj1 (registerBlock_builtin_name Sample.client
                    (Sample.new_block "filter") (Sample.always Nothing None) [])).
    by_evaluation.
  - apply (proj1 (proj2 (registerBlock_builtin_name Sample.client
                           (Sample.new_block "mine")
                           (Sample.always Nothing None) []))).
    by_evaluation.
Defined.

(** C8, on the sample client. *)
Lemma deleteBlock_builtin_name_sample :
  deleteBlock Sample.client "filter" (Sample.always Nothing None) []
  = (Rejected (Error "Cannot delete a native block"), [])
  ∧ deleteBlock Sample.client "mine" (Sample.always Nothing None) []
    = (Resolved (),
       [{| method := DELETE;
           url := "https://api.example.com/flow/v1/test/blocks/mine";
           Authorization := "Bearer secret";
           Content_Type := "application/json;charset=UTF-8";
           request_data := None |}]).
Proof.
  split.
  - apply (proj1 (deleteBlock_builtin_name Sample.client "filter"
                    (Sample.always Nothing None) [])).
    by_evaluation.
  - apply (proj1 (proj2 (deleteBlock_builtin_name Sample.client "mine"
                           (Sample.always Nothing None) []))).
    by_evaluation.
Defined.



(** ** Rooms *)

Section RoomProperties.
Context `{Imports}.
Implicit Types (w : World) (p q : nat) (o : Outcome Value).

(** *** The parts of the state that each primitive touches *)

Lemma not_inherited (name : string) :
  name ∉ Js.Object_prototype → Js.inherited name = false.
Proof. apply bool_decide_eq_false. Qed.

Lemma is_inherited (name : string) :
  name ∈ Js.Object_prototype → Js.inherited name = true.
Proof. apply bool_decide_eq_true. Qed.

Lemma settle_new_promise w o :
  settle (new_promise w).2 o (new_promise w).1
  = {| this := this w; calls := calls w; waiting := waiting w;
       promises := promises w ++ [Some o]; fired := fired w |}.
Proof.
  unfold settle, new_promise. simpl.
  rewrite lookup_app_r, Nat.sub_diag by done. simpl.
  f_equal. rewrite insert_app_r_alt, Nat.sub_diag by done. done.
Qed.

Lemma settle_parts p o w :
  this (settle p o w) = this w ∧ calls (settle p o w) = calls w
  ∧ waiting (settle p o w) = waiting w ∧ fired (settle p o w) = fired w
  ∧ length (promises (settle p o w)) = length (promises w).
Proof.
  unfold settle. destruct (promises w !! p) as [[?|]|]; simpl; try done.
  by rewrite length_insert.
Qed.

Lemma promise_settle_ne p q o w :
  p ≠ q → promise (settle p o w) q = promise w q.
Proof.
  intros Hne. unfold settle, promise.
  destruct (promises w !! p) as [[?|]|]; simpl; try done.
  by rewrite list_lookup_insert_ne.
Qed.

(** C5: on a room that is not in the registry of joined channels,
    [listenForEvents], [registerVolatileTrigger] and [leaveRoom] hand out
    a promise that is rejected; no call reaches the socket or a channel,
    no callback is left waiting, and the client (registry, socket,
    listeners) is as it was.  The promise is rejected with the
    precondition error of the operation, unless the name of the room is
    one of [Object.prototype] ([constructor], [toString], ...): the
    lookup then finds that property, the operation goes on as if the
    room were joined, and the promise is rejected with the TypeError of
    the call that it attempts. *)
Theorem room_not_joined_is_rejected w (roomName : string) (eventHandler : nat)
    (triggerPayload : AstarteTransientTriggerDTO) :
  joinedChannels (this w) !! roomName = None →
  let rejected (e : JsError) : World * nat :=
    ({| this := this w; calls := calls w; waiting := waiting w;
        promises := promises w ++ [Some (Rejected e)];
        fired := fired w |},
     length (promises w)) in
  (roomName ∉ Js.Object_prototype →
   listenForEvents roomName eventHandler w
   = rejected (Error "Can't listen for room events before joining it first")
   ∧ registerVolatileTrigger roomName triggerPayload w
     = rejected (Error "Room not joined, couldn't register trigger")
   ∧ leaveRoom roomName w
     = rejected (Error "Can't leave a room without joining it first"))
  ∧ (roomName ∈ Js.Object_prototype →
     listenForEvents roomName eventHandler w
     = rejected (TypeError "channel.on is not a function")
     ∧ registerVolatileTrigger roomName triggerPayload w
       = rejected (TypeError "channel.push is not a function")
     ∧ leaveRoom roomName w
       = rejected (TypeError "channel.leave is not a function")).
Proof.
  intros Hroom rejected.
  unfold listenForEvents, registerVolatileTrigger, leaveRoom, rejected.
  pose proof (settle_new_promise w) as Hsettle. unfold new_promise in *.
  simpl in *. rewrite Hroom.
  split; intros Hname.
  - rewrite (not_inherited roomName Hname). by rewrite !Hsettle.
  - rewrite (is_inherited roomName Hname). by rewrite !Hsettle.
Qed.

(** *** Promises that nothing will settle *)

Lemma orphan_set_this (f : AstarteClient → AstarteClient) w p :
  orphan w p → orphan (set_this f w) p.
Proof. done. Qed.

Lemma orphan_forget ref w p : orphan w p → orphan (forget ref w) p.
Proof.
  intros (Hlt & Hp & Hk). repeat split; [done..|].
  intros ref' k. simpl. intros [_ Hk']%lookup_delete_Some. eauto.
Qed.

Lemma orphan_call (c : PhoenixCall) (k : Continuation) w p :
  target k ≠ p → orphan w p → orphan (call c k w) p.
Proof.
  intros Hne (Hlt & Hp & Hk). repeat split; [done..|].
  intros ref' k'. simpl. intros [[_ <-]|[_ Hk']]%lookup_insert_Some; eauto.
Qed.

Lemma orphan_call_only (c : PhoenixCall) w p :
  orphan w p → orphan (call_only c w) p.
Proof. done. Qed.

Lemma orphan_dispatch (eventName : string) w p :
  orphan w p → orphan (dispatch eventName w) p.
Proof. done. Qed.

Lemma orphan_settle q o w p : q ≠ p → orphan w p → orphan (settle q o w) p.
Proof.
  intros Hne (Hlt & Hp & Hk).
  destruct (settle_parts q o w) as (_ & _ & Hw & _ & Hlen).
  repeat split.
  - by rewrite Hlen.
  - by rewrite promise_settle_ne.
  - by rewrite Hw.
Qed.

Lemma orphan_new_promise w p :
  orphan w p → orphan (new_promise w).1 p ∧ (new_promise w).2 ≠ p.
Proof.
  intros (Hlt & Hp & Hk). unfold new_promise. simpl. repeat split; [| |done|lia].
  - simpl. rewrite length_app. simpl. lia.
  - unfold promise in *. simpl. by rewrite lookup_app_l.
Qed.

Lemma orphan_joinRoom_on (socket : Socket.t) (roomName : string) q w p :
  q ≠ p → orphan w p → orphan (joinRoom_on socket roomName q w) p.
Proof.
  intros Hne Hw. unfold joinRoom_on.
  destruct (joinedChannels (this w) !! roomName);
    [|destruct (Js.inherited roomName)];
    first [by apply orphan_settle | by apply orphan_call].
Qed.

Lemma orphan_joinRoom_settling (roomName : string) q w p :
  q ≠ p → orphan w p → orphan (joinRoom_settling q roomName w) p.
Proof.
  intros Hne Hw. unfold joinRoom_settling, openSocketConnection.
  destruct (phoenixSocket (this w)).
  - by apply orphan_joinRoom_on.
  - by apply orphan_call.
Qed.

Lemma orphan_deliver (e : Event) w p : orphan w p → orphan (deliver e w) p.
Proof.
  intros Hw. pose proof Hw as (_ & _ & Hk).
  destruct e as [ref|ref|ref|ref|ref reply]; simpl;
    try by destruct (is_socket w ref); [apply orphan_dispatch|].
  - destruct (waiting w !! ref) as [[socket roomName q| |]|] eqn:Hwait; try done.
    apply orphan_joinRoom_settling; [exact (Hk _ _ Hwait)|].
    by apply orphan_set_this, orphan_forget.
  - destruct (waiting w !! ref) as [k|] eqn:Hwait; [|done].
    specialize (Hk _ _ Hwait).
    destruct k; try done;
      by apply orphan_settle; [|apply orphan_set_this || idtac; apply orphan_forget].
  - destruct (waiting w !! ref) as [k|] eqn:Hwait; [|done].
    specialize (Hk _ _ Hwait).
    destruct k; try done;
      first [by apply orphan_forget
            | by apply orphan_settle; [|apply orphan_forget]].
Qed.

Lemma orphan_step (a : Action) w p : orphan w p → orphan (step w a) p.
Proof.
  intros Hw. destruct (orphan_new_promise w p Hw) as [Hw' Hne].
  destruct a; simpl;
    try (by apply orphan_set_this); try (by apply orphan_deliver).
  - by apply orphan_joinRoom_settling.
  - unfold listenForEvents. simpl.
    destruct (joinedChannels (this w) !! roomName);
      [|destruct (Js.inherited roomName)]; simpl;
      apply orphan_settle; try exact Hne; try exact Hw'.
  - unfold registerVolatileTrigger. simpl.
    destruct (joinedChannels (this w) !! roomName);
      [|destruct (Js.inherited roomName)]; simpl;
      first [by apply orphan_call | by apply orphan_settle].
  - unfold leaveRoom. simpl.
    destruct (joinedChannels (this w) !! roomName);
      [|destruct (Js.inherited roomName)]; simpl;
      by apply orphan_settle.
Qed.

(** Whatever the callers and the library do next, such a promise stays
    pending. *)
Lemma orphan_steps (l : list Action) w p : orphan w p → orphan (steps w l) p.
Proof.
  revert w. induction l as [|a l IH]; intros w Hw; [done|].
  simpl. by apply IH, orphan_step.
Qed.

(** *** Reachable states are well formed *)

Lemma well_formed_call (c : PhoenixCall) (k : Continuation) w :
  target k < length (promises w) → well_formed w → well_formed (call c k w).
Proof.
  intros Hk Hw ref k'. simpl.
  intros [[_ <-]|[_ Hk']]%lookup_insert_Some; eauto.
Qed.

Lemma well_formed_forget ref w : well_formed w → well_formed (forget ref w).
Proof. intros Hw ref' k. simpl. intros [_ Hk]%lookup_delete_Some. eauto. Qed.

Lemma well_formed_settle q o w : well_formed w → well_formed (settle q o w).
Proof.
  intros Hw ref k. destruct (settle_parts q o w) as (_ & _ & -> & _ & ->).
  apply Hw.
Qed.

Lemma well_formed_new_promise w :
  well_formed w →
  well_formed (new_promise w).1
  ∧ (new_promise w).2 < length (promises (new_promise w).1).
Proof.
  intros Hw. unfold new_promise. simpl. rewrite length_app. simpl.
  split; [|lia]. intros ref k Hk. simpl in *. rewrite length_app.
  specialize (Hw _ _ Hk). lia.
Qed.

Lemma well_formed_joinRoom_settling (roomName : string) q w :
  q < length (promises w) → well_formed w →
  well_formed (joinRoom_settling q roomName w).
Proof.
  intros Hq Hw. unfold joinRoom_settling, openSocketConnection, joinRoom_on.
  destruct (phoenixSocket (this w));
    [destruct (joinedChannels (this w) !! roomName);
       [|destruct (Js.inherited roomName)]|];
    first [by apply well_formed_settle | by apply well_formed_call].
Qed.

Lemma well_formed_deliver (e : Event) w : well_formed w → well_formed (deliver e w).
Proof.
  intros Hw. destruct e as [ref|ref|ref|ref|ref reply]; simpl;
    try by destruct (is_socket w ref).
  - destruct (waiting w !! ref) as [[socket roomName q| |]|] eqn:Hwait; try done.
    apply well_formed_joinRoom_settling; [exact (Hw _ _ Hwait)|].
    by apply well_formed_forget.
  - destruct (waiting w !! ref) as [[]|]; try done;
      by apply well_formed_settle, well_formed_forget.
  - destruct (waiting w !! ref) as [[]|]; try done;
      first [by apply well_formed_forget
            | by apply well_formed_settle, well_formed_forget].
Qed.

Lemma well_formed_step (a : Action) w : well_formed w → well_formed (step w a).
Proof.
  intros Hw. destruct (well_formed_new_promise w Hw) as [Hw' Hlt].
  destruct a; simpl; try done; try (by apply well_formed_deliver).
  - by apply well_formed_joinRoom_settling.
  - unfold listenForEvents. simpl.
    destruct (joinedChannels (this w) !! roomName);
      [|destruct (Js.inherited roomName)]; simpl;
      by apply well_formed_settle.
  - unfold registerVolatileTrigger. simpl.
    destruct (joinedChannels (this w) !! roomName);
      [|destruct (Js.inherited roomName)]; simpl;
      first [by apply well_formed_call | by apply well_formed_settle].
  - unfold leaveRoom. simpl.
    destruct (joinedChannels (this w) !! roomName);
      [|destruct (Js.inherited roomName)]; simpl;
      by apply well_formed_settle.
Qed.

Lemma well_formed_reachable (config : AstarteClientConfig) (l : list Action) :
  well_formed (steps (boot config) l).
Proof.
  assert (∀ w, well_formed w → well_formed (steps w l)) as Hsteps.
  { induction l as [|a l IH]; intros w Hw; [done|].
    simpl. by apply IH, well_formed_step. }
  apply Hsteps. intros ref k. simpl. by rewrite lookup_empty.
Qed.

(** *** Joining *)

Lemma joinRoom_handshake w (roomName : string) (socket : Socket.t) :
  phoenixSocket (this w) = Some socket →
  joinedChannels (this w) !! roomName = None →
  roomName ∉ Js.Object_prototype →
  let channel :=
    Channel.mk (length (calls w)) socket
      ("rooms:" +:+ realm (this w) +:+ ":" +:+ roomName) in
  joinRoom roomName w
  = (call (ChannelJoin channel)
          (AfterJoin channel roomName (length (promises w)))
          (new_promise w).1,
     length (promises w)).
Proof.
  intros Hsocket Hroom Hname. unfold joinRoom, joinRoom_settling, joinRoom_on.
  simpl. by rewrite Hsocket, Hroom, (not_inherited roomName Hname).
Qed.

(** The lookup of a name of [Object.prototype] finds that property:
    [joinRoom] hands it out at once and makes no handshake. *)
Lemma joinRoom_inherited w (roomName : string) (socket : Socket.t) :
  phoenixSocket (this w) = Some socket →
  joinedChannels (this w) !! roomName = None →
  roomName ∈ Js.Object_prototype →
  joinRoom roomName w
  = ({| this := this w; calls := calls w; waiting := waiting w;
        promises := promises w ++ [Some (Resolved (Prototype roomName))];
        fired := fired w |},
     length (promises w)).
Proof.
  intros Hsocket Hroom Hname. unfold joinRoom, joinRoom_settling, joinRoom_on.
  pose proof (settle_new_promise w) as Hsettle. unfold new_promise in *.
  simpl in *. by rewrite Hsocket, Hroom, (is_inherited roomName Hname), Hsettle.
Qed.


(** C3: in a state that the client can reach, with the socket open and
    the room not in the registry, [joinRoom] starts a join handshake;
    when the server rejects it, the room is not added to the registry,
    and the promise that [joinRoom] returned is not rejected: it is
    pending then and stays pending whatever the callers and the library
    do afterwards.  (Under a name of [Object.prototype] there is no
    handshake to reject: the promise resolves at once to the property of
    that name.) *)
Theorem joinRoom_rejection_is_swallowed (config : AstarteClientConfig)
    (history : list Action) (roomName : string) (socket : Socket.t)
    (reply : string) (later : list Action) :
  let w := steps (boot config) history in
  phoenixSocket (this w) = Some socket →
  joinedChannels (this w) !! roomName = None →
  let channel :=
    Channel.mk (length (calls w)) socket
      ("rooms:" +:+ realm (this w) +:+ ":" +:+ roomName) in
  let joining := joinRoom roomName w in
  let refused := deliver (ReplyError (length (calls w)) reply) joining.1 in
  (roomName ∉ Js.Object_prototype →
   calls joining.1 = calls w ++ [ChannelJoin channel]
   ∧ this refused = this w
   ∧ promise refused joining.2 = None
   ∧ promise (steps refused later) joining.2 = None)
  ∧ (roomName ∈ Js.Object_prototype →
     calls joining.1 = calls w
     ∧ this joining.1 = this w
     ∧ promise joining.1 joining.2 = Some (Resolved (Prototype roomName))).
Proof.
  intros w Hsocket Hroom channel joining refused.
  split; intros Hname; revgoals.
  { unfold joining. rewrite (joinRoom_inherited w roomName socket) by done.
    unfold promise. simpl. by rewrite lookup_app_r, Nat.sub_diag. }
  pose proof (well_formed_reachable config history) as Hwf. fold w in Hwf.
  unfold refused, joining. rewrite (joinRoom_handshake w roomName socket) by done.
  simpl. rewrite lookup_insert_eq.
  assert (orphan
            (forget (length (calls w))
               (call (ChannelJoin channel)
                  (AfterJoin channel roomName (length (promises w)))
                  (new_promise w).1))
            (length (promises w))) as Horphan.
  { repeat split.
    - simpl. rewrite length_app. simpl. lia.
    - unfold promise. simpl. by rewrite lookup_app_r, Nat.sub_diag.
    - intros ref k. simpl.
      intros [Hne [[Heq _]|[_ Hk]]%lookup_insert_Some]%lookup_delete_Some;
        [done|].
      specialize (Hwf _ _ Hk). lia. }
  split; [done|]. split; [done|]. split.
  - apply Horphan.
  - by apply orphan_steps.
Qed.

Lemma filter_is_connect_join (l : list PhoenixCall) (c : Channel.t) :
  filter is_connect (l ++ [ChannelJoin c]) = filter is_connect l.
Proof. by rewrite filter_app, app_nil_r. Qed.

(** A join request made while the client holds a socket connects
    nothing. *)
Lemma joinRoom_on_connections (socket : Socket.t) (roomName : string) p w :
  filter is_connect (calls (joinRoom_on socket roomName p w))
  = filter is_connect (calls w)
  ∧ phoenixSocket (this (joinRoom_on socket roomName p w))
    = phoenixSocket (this w).
Proof.
  unfold joinRoom_on.
  destruct (joinedChannels (this w) !! roomName);
    [|destruct (Js.inherited roomName)].
  - by destruct (settle_parts p (Resolved (Joined t)) w) as (-> & -> & _).
  - by destruct (settle_parts p (Resolved (Prototype roomName)) w)
      as (-> & -> & _).
  - simpl. by rewrite filter_is_connect_join.
Qed.



(** Two calls for a room, the second made while the handshake of the
    first is in flight: each makes its own channel and handshake. *)
Lemma joinRoom_twice_in_flight w (roomName : string) (socket : Socket.t) :
  phoenixSocket (this w) = Some socket →
  joinedChannels (this w) !! roomName = None →
  roomName ∉ Js.Object_prototype →
  let topic := "rooms:" +:+ realm (this w) +:+ ":" +:+ roomName in
  calls (joinRoom roomName (joinRoom roomName w).1).1
  = calls w ++ [ChannelJoin (Channel.mk (length (calls w)) socket topic);
                ChannelJoin (Channel.mk (S (length (calls w))) socket topic)].
Proof.
  intros Hsocket Hroom Hname topic.
  rewrite (joinRoom_handshake w roomName socket) by done.
  cbn [fst]. rewrite (joinRoom_handshake _ roomName socket) by done.
  simpl. rewrite length_app, <- app_assoc. simpl. by rewrite Nat.add_1_r.
Qed.

(** Two calls on a client without a socket, the second made while the
    socket of the first is opening: each opens its own socket. *)
Lemma joinRoom_twice_while_opening w (roomName otherRoom : string) :
  phoenixSocket (this w) = None →
  ∃ socketUrl : string,
    calls (joinRoom otherRoom (joinRoom roomName w).1).1
    = calls w
      ++ [SocketConnect (Socket.mk (length (calls w)) socketUrl
                           (realm (this w)) (token (this w)));
          SocketConnect (Socket.mk (S (length (calls w))) socketUrl
                           (realm (this w)) (token (this w)))].
Proof.
  intros Hsocket. eexists.
  unfold joinRoom, joinRoom_settling, openSocketConnection. simpl.
  rewrite Hsocket. simpl. rewrite Hsocket. simpl.
  rewrite length_app, <- app_assoc. simpl. by rewrite Nat.add_1_r.
Qed.


End RoomProperties.

(** C5, on a client just constructed: the room [room], and the room
    [constructor]. *)
Lemma room_not_joined_is_rejected_sample :
  (listenForEvents "room" 7 (boot Sample.configuration)
   = ({| this := Sample.client; calls := []; waiting := ∅;
         promises :=
           [Some (Rejected
                    (Error "Can't listen for room events before joining it first"))];
         fired := [] |}, 0)
   ∧ registerVolatileTrigger (H := Sample.imports) "room" "{}"
       (boot Sample.configuration)
     = ({| this := Sample.client; calls := []; waiting := ∅;
           promises :=
             [Some (Rejected (Error "Room not joined, couldn't register trigger"))];
           fired := [] |}, 0)
   ∧ leaveRoom "room" (boot Sample.configuration)
     = ({| this := Sample.client; calls := []; waiting := ∅;
           promises :=
             [Some (Rejected
                      (Error "Can't leave a room without joining it first"))];
           fired := [] |}, 0))
  ∧ joinedChannels (this (boot Sample.configuration)) !! "constructor" = None
  ∧ listenForEvents "constructor" 7 (boot Sample.configuration)
    = ({| this := Sample.client; calls := []; waiting := ∅;
          promises := [Some (Rejected (TypeError "channel.on is not a function"))];
          fired := [] |}, 0)
  ∧ registerVolatileTrigger (H := Sample.imports) "constructor" "{}"
      (boot Sample.configuration)
    = ({| this := Sample.client; calls := []; waiting := ∅;
          promises :=
            [Some (Rejected (TypeError "channel.push is not a function"))];
          fired := [] |}, 0)
  ∧ leaveRoom "constructor" (boot Sample.configuration)
    = ({| this := Sample.client; calls := []; waiting := ∅;
          promises :=
            [Some (Rejected (TypeError "channel.leave is not a function"))];
          fired := [] |}, 0).
Proof.
  split; [|split; [reflexivity|]].
  - apply (proj1 (room_not_joined_is_rejected (H := Sample.imports)
                    (boot Sample.configuration) "room" 7 "{}" eq_refl)).
    by_evaluation.
  - apply (proj2 (room_not_joined_is_rejected (H := Sample.imports)
                    (boot Sample.configuration) "constructor" 7 "{}" eq_refl)).
    by_evaluation.
Defined.

(** C3, on the sample client: the room [lobby] is joined, the join of
    [room] is refused; its promise, the second one handed out, is still
    pending after the refusal, and after a late acceptance and a new
    call. *)
Lemma joinRoom_rejection_is_swallowed_sample :
  phoenixSocket (this Sample.connected) = Some Sample.socket
  ∧ joinedChannels (this Sample.connected) !! "room" = None
  ∧ this (deliver (ReplyError 2 "unauthorized")
            (joinRoom "room" Sample.connected).1)
    = this Sample.connected
  ∧ promise (deliver (ReplyError 2 "unauthorized")
               (joinRoom "room" Sample.connected).1) 1 = None
  ∧ promise (steps (deliver (ReplyError 2 "unauthorized")
                      (joinRoom "room" Sample.connected).1)
               [Deliver (ReplyOk 2); Deliver (SocketClose 0); LeaveRoom "room"]) 1
    = None.
Proof.
  split; [reflexivity|]. split; [reflexivity|].
  apply (proj1 (joinRoom_rejection_is_swallowed Sample.configuration
                  [JoinRoom "lobby"; Deliver (SocketOpened 0); Deliver (ReplyOk 1)]
                  "room" Sample.socket "unauthorized"
                  [Deliver (ReplyOk 2); Deliver (SocketClose 0); LeaveRoom "room"]
                  eq_refl eq_refl)).
  by_evaluation.
Defined.

(** C2: two calls of [joinRoom] for one room, made on a new client
    before anything resolves, open two sockets and perform two join
    handshakes, and their promises resolve to two different channels;
    with the socket already open, the two calls still perform two
    handshakes.  The client records a socket when it has opened and a
    channel when its join is accepted, and nothing of what is in
    flight. *)
Lemma joinRoom_pending_calls_are_not_shared :
  connections (steps (boot Sample.configuration) Sample.two_calls) = 2
  ∧ handshakes (steps (boot Sample.configuration)
                  (Sample.two_calls ++ Sample.all_accepted)) = 2
  ∧ promise (steps (boot Sample.configuration)
               (Sample.two_calls ++ Sample.all_accepted)) 0
    = Some (Resolved (Joined Sample.channel))
  ∧ promise (steps (boot Sample.configuration)
               (Sample.two_calls ++ Sample.all_accepted)) 1
    = Some (Resolved (Joined Sample.channel'))
  ∧ Sample.channel ≠ Sample.channel'
  ∧ handshakes (steps Sample.connected Sample.two_calls)
    = handshakes Sample.connected + 2.
Proof. repeat split; done. Qed.


(** ** Device pagination *)

Section QueryStrings.
Import Js URLSearchParams.

Lemma split_piece (sep : ascii) (s : string) :
  all (λ c, negb (Ascii.eqb c sep)) s = true →
  split sep s = [s]
  ∧ ∀ rest, split sep (s +:+ String sep rest) = s :: split sep rest.
Proof.
  induction s as [|c s IH]; simpl.
  - intros _. split; [done|]. intros rest. by rewrite Ascii.eqb_refl.
  - intros [Hc Hs]%andb_true_iff. apply negb_true_iff in Hc.
    destruct (IH Hs) as [IH1 IH2]. rewrite Hc, IH1. split; [done|].
    intros rest. by rewrite IH2.
Qed.

Lemma decode_plain (t : string) :
  all (λ c, negb (mem c "&=+%")) t = true → decode t = t.
Proof.
  unfold decode. induction t as [|c t IH]; [done|]. simpl.
  intros [Hc Ht]%andb_true_iff. apply negb_true_iff in Hc.
  specialize (IH Ht).
  destruct (Ascii.eqb_spec c "+") as [->|_]; [done|].
  destruct (Ascii.eqb_spec c "%") as [->|_]; [done|].
  by rewrite IH.
Qed.

(** A link that is a bare query string, with or without its question
    mark, and that starts with the token: the token is found. *)
Lemma from_token_of_query_string (mark : bool) (t rest : string) :
  all (λ c, negb (mem c "&=+%")) t = true →
  rest = "" ∨ (∃ r, rest = String "&" r) →
  get "from_token"
    (of_string (Some ((if mark then "?" else "") +:+ "from_token=" +:+ t +:+ rest)))
  = Some t.
Proof.
  intros Ht Hrest. unfold of_string.
  assert (all (λ c, negb (Ascii.eqb c "&")) ("from_token=" +:+ t) = true) as Hpiece.
  { rewrite all_app. apply andb_true_iff. split; [done|].
    eapply all_impl; [|exact Ht]. intros c Hc. apply negb_true_iff in Hc.
    apply negb_true_iff. by destruct (Ascii.eqb_spec c "&") as [->|]. }
  assert (∃ pieces, split "&" ("from_token=" +:+ t +:+ rest)
                    = ("from_token=" +:+ t) :: pieces) as [pieces Hsplit].
  { destruct (split_piece "&" _ Hpiece) as [H1 H2].
    destruct Hrest as [->|[r ->]].
    - exists []. by rewrite append_empty_r.
    - exists (split "&" r). by rewrite <- H2, append_assoc. }
  assert (parse_pieces (("from_token=" +:+ t) :: pieces)
          = ("from_token", t) :: parse_pieces pieces) as Hparse.
  { unfold parse_pieces. rewrite !append_String, append_empty_l. simpl.
    fold (decode t). by rewrite (decode_plain t Ht). }
  assert (get "from_token"
            (parse_pieces (split "&" ("from_token=" +:+ t +:+ rest)))
          = Some t) as Hget by by rewrite Hsplit, Hparse.
  by destruct mark.
Qed.

End QueryStrings.

Section DeviceProperties.
Context `{Imports}.
Implicit Types (this : AstarteClient) (server : Server) (log : list Request).

(** What [getDevices] resolves to on a device list with links: the
    devices, and whatever [URLSearchParams] finds under [from_token] when
    the next link is handed to it as it is. *)
Lemma getDevices_nextToken this (params : GetDevicesParams) server log
    (l : list AstarteDeviceDTO) (links : Links) :
  server log (getDevices_request this params)
  = Resolved {| response_data := Devices l; response_links := Some links |} →
  getDevices this params server log
  = (Resolved (map fromAstarteDeviceDTO l,
               URLSearchParams.get "from_token"
                 (URLSearchParams.of_string (next links))),
     log ++ [getDevices_request this params]).
Proof.
  intros Hserver.
  unfold getDevices, mbind, Http_bind, await, _get, axios.
  fold (getDevices_request this params). by rewrite Hserver.
Qed.

(** Without a next link the token is [null]. *)
Lemma getDevices_no_next_link this (params : GetDevicesParams) server log
    (l : list AstarteDeviceDTO) (link : option string) :
  server log (getDevices_request this params)
  = Resolved {| response_data := Devices l;
                response_links := Some {| self := link; next := None |} |} →
  (getDevices this params server log).1
  = Resolved (map fromAstarteDeviceDTO l, None).
Proof. intros Hserver. by rewrite (getDevices_nextToken _ _ _ _ l _ Hserver). Qed.

(** Without a [links] object the operation is rejected. *)
Lemma getDevices_no_links this (params : GetDevicesParams) server log
    (l : list AstarteDeviceDTO) :
  server log (getDevices_request this params)
  = Resolved {| response_data := Devices l; response_links := None |} →
  (getDevices this params server log).1
  = Rejected (TypeError "Cannot read properties of undefined (reading 'next')").
Proof.
  intros Hserver.
  unfold getDevices, mbind, Http_bind, await, _get, axios.
  fold (getDevices_request this params). by rewrite Hserver.
Qed.

End DeviceProperties.

(** C9: the next link of the answer is [/v1/test/devices?from_token=abc&limit=2];
    [getDevices] resolves with a [null] token.  [URLSearchParams] reads
    the whole link as a query string, and the name of its first parameter
    is then [/v1/test/devices?from_token]. *)
Theorem getDevices_misses_leading_token :
  getDevices Sample.client {| details := None; from := None; limit := Some 2%N |}
    Sample.first_page []
  = (Resolved (["device-1"; "device-2"], None),
     [request Sample.client GET
        "http://localhost:4002/appengine/v1/test/devices?limit=2" json None])
  ∧ URLSearchParams.of_string (Some "/v1/test/devices?from_token=abc&limit=2")
    = [("/v1/test/devices?from_token", "abc"); ("limit", "2")].
Proof. split; reflexivity. Qed.

(** Beside C9: the token is found when another parameter comes before
    it, and when the link is a bare query string. *)
Example getDevices_finds_later_token :
  (getDevices Sample.client
     {| details := Some true; from := None; limit := Some 2%N |}
     Sample.first_page_with_details []).1
  = Resolved (["device-1"; "device-2"], Some "abc")
  ∧ URLSearchParams.get "from_token"
      (URLSearchParams.of_string (Some "?from_token=abc")) = Some "abc".
Proof. split; reflexivity. Qed.

(** * Further properties of the room manager *)

Section RoomOperations.
Context `{Imports}.
Implicit Types (w : World) (p q : nat) (o : Outcome Value).

Lemma settle_fresh w' p o :
  promises w' !! p = Some None →
  settle p o w'
  = {| this := this w'; calls := calls w'; waiting := waiting w';
       promises := <[p := Some o]> (promises w'); fired := fired w' |}.
Proof. intros Hp. unfold settle. by rewrite Hp. Qed.



(** X4: [registerVolatileTrigger] on a joined room pushes [watch] with the
    payload on the channel of the room and touches nothing of the
    client; its promise is pending until the server answers, resolves
    when the server accepts and is rejected with the reply of the server
    when it refuses. *)
Theorem registerVolatileTrigger_settles w (roomName reply : string)
    (channel : Channel.t) (triggerPayload : AstarteTransientTriggerDTO) :
  joinedChannels (this w) !! roomName = Some channel →
  let registering := registerVolatileTrigger roomName triggerPayload w in
  calls registering.1 = calls w ++ [ChannelPush channel "watch" triggerPayload]
  ∧ this registering.1 = this w
  ∧ promise registering.1 registering.2 = None
  ∧ promise (deliver (ReplyOk (length (calls w))) registering.1) registering.2
    = Some (Resolved Void)
  ∧ promise (deliver (ReplyError (length (calls w)) reply) registering.1)
      registering.2
    = Some (Rejected (ChannelError reply))
  ∧ this (deliver (ReplyOk (length (calls w))) registering.1) = this w
  ∧ this (deliver (ReplyError (length (calls w)) reply) registering.1) = this w.
Proof.
  intros Hroom registering.
  unfold registering, registerVolatileTrigger. simpl. rewrite Hroom. simpl.
  rewrite lookup_insert_eq. unfold promise.
  rewrite !settle_fresh by (simpl; by rewrite lookup_app_r, Nat.sub_diag).
  simpl. rewrite lookup_app_r, Nat.sub_diag by done.
  repeat split; try done;
    by rewrite list_lookup_insert_eq by (rewrite length_app; simpl; lia).
Qed.

(** [listenForEvents] on a joined room registers the handler for
    [new_event] on the channel of the room and resolves at once: nothing
    is left waiting for the server, and the client is as it was. *)
Lemma listenForEvents_registers w (roomName : string) (channel : Channel.t)
    (eventHandler : nat) :
  joinedChannels (this w) !! roomName = Some channel →
  listenForEvents roomName eventHandler w
  = ({| this := this w;
        calls := calls w ++ [ChannelOn channel "new_event" eventHandler];
        waiting := waiting w;
        promises := promises w ++ [Some (Resolved Void)];
        fired := fired w |},
     length (promises w)).
Proof.
  intros Hroom. unfold listenForEvents. simpl. rewrite Hroom.
  rewrite settle_fresh by (simpl; by rewrite lookup_app_r, Nat.sub_diag).
  simpl. by rewrite insert_app_r_alt, Nat.sub_diag by done.
Qed.

(** X5: [listenForEvents] never looks at the handlers that a channel
    has: listening to a joined room twice with one handler registers the
    handler twice on the channel, and both promises are resolved at
    once. *)
Theorem listenForEvents_twice w (roomName : string) (channel : Channel.t)
    (eventHandler : nat) :
  joinedChannels (this w) !! roomName = Some channel →
  let first := listenForEvents roomName eventHandler w in
  let second := listenForEvents roomName eventHandler first.1 in
  calls second.1
  = calls w ++ [ChannelOn channel "new_event" eventHandler;
                ChannelOn channel "new_event" eventHandler]
  ∧ promise second.1 first.2 = Some (Resolved Void)
  ∧ promise second.1 second.2 = Some (Resolved Void)
  ∧ waiting second.1 = waiting w
  ∧ this second.1 = this w.
Proof.
  intros Hroom first second. unfold second, first.
  rewrite (listenForEvents_registers w roomName channel) by done.
  cbn [fst snd].
  rewrite (listenForEvents_registers _ roomName channel) by done.
  unfold promise. simpl. rewrite <- app_assoc. repeat split.
  - rewrite lookup_app_l by (rewrite length_app; simpl; lia).
    by rewrite lookup_app_r, Nat.sub_diag.
  - by rewrite lookup_app_r, Nat.sub_diag.
Qed.

(** *** The socket and the registry in the states that can be reached *)

Lemma connected_by_call (c : PhoenixCall) (k : Continuation) w (s : Socket.t) :
  connected_by w s → connected_by (call c k w) s.
Proof. unfold connected_by. simpl. intros Hs. by apply lookup_app_l_Some. Qed.

Lemma joined_by_call (c : PhoenixCall) (k : Continuation) w
    (roomName : string) (ch : Channel.t) :
  joined_by w roomName ch → joined_by (call c k w) roomName ch.
Proof.
  intros (Hjoin & Htopic & Hsocket). repeat split; [|done|].
  - simpl. by apply lookup_app_l_Some.
  - by apply connected_by_call.
Qed.

Lemma coherent_settle p o w : coherent w → coherent (settle p o w).
Proof.
  intros [H1 H2 H3 H4].
  destruct (settle_parts p o w) as (Hthis & Hcalls & Hwaiting & _).
  split; unfold joined_by, connected_by in *;
    rewrite ?Hthis, ?Hcalls, ?Hwaiting; done.
Qed.

Lemma coherent_forget ref w : coherent w → coherent (forget ref w).
Proof.
  intros [H1 H2 H3 H4]. split; try done; simpl.
  - intros ref' s roomName p [_ Hk]%lookup_delete_Some. eauto.
  - intros ref' c roomName p [_ Hk]%lookup_delete_Some. eauto.
Qed.

Lemma coherent_dispatch (eventName : string) w :
  coherent w → coherent (dispatch eventName w).
Proof. by intros [H1 H2 H3 H4]. Qed.

Lemma coherent_new_promise w : coherent w → coherent (new_promise w).1.
Proof. by intros [H1 H2 H3 H4]. Qed.

Lemma coherent_call_only (c : PhoenixCall) w :
  coherent w → coherent (call_only c w).
Proof.
  intros [H1 H2 H3 H4].
  assert (∀ s, connected_by w s → connected_by (call_only c w) s) as Hs.
  { unfold connected_by. simpl. intros s Hs. by apply lookup_app_l_Some. }
  assert (∀ r ch, joined_by w r ch → joined_by (call_only c w) r ch) as Hj.
  { intros r ch (Hjoin & Htopic & Hsocket). repeat split; [|done|by apply Hs].
    simpl. by apply lookup_app_l_Some. }
  split; simpl.
  - intros s Hsock. by apply Hs, H1.
  - intros r ch Hr. destruct (H2 _ _ Hr). split; [by apply Hj|done].
  - intros ref s r p Hk. destruct (H3 _ _ _ _ Hk). split; [done|by apply Hs].
  - intros ref ch r p Hk. destruct (H4 _ _ _ _ Hk) as (? & ? & ?).
    split; [done|]. split; [by apply Hj|done].
Qed.

(** A call that leaves a callback of [registerVolatileTrigger]. *)
Lemma coherent_call_plain (c : PhoenixCall) (k : Continuation) w :
  (∀ s r p, k ≠ AfterOpen s r p) → (∀ ch r p, k ≠ AfterJoin ch r p) →
  coherent w → coherent (call c k w).
Proof.
  intros Hopen Hjoin [H1 H2 H3 H4]. split; simpl.
  - intros s Hsock. by apply connected_by_call, H1.
  - intros r ch Hr. destruct (H2 _ _ Hr). split; [by apply joined_by_call|done].
  - intros ref s r p [[_ Hk]|[_ Hk]]%lookup_insert_Some; [by destruct (Hopen s r p)|].
    destruct (H3 _ _ _ _ Hk). split; [done|by apply connected_by_call].
  - intros ref ch r p [[_ Hk]|[_ Hk]]%lookup_insert_Some; [by destruct (Hjoin ch r p)|].
    destruct (H4 _ _ _ _ Hk) as (? & ? & ?).
    split; [done|]. split; [by apply joined_by_call|done].
Qed.

Lemma coherent_joinRoom_on (socket : Socket.t) (roomName : string) p w :
  phoenixSocket (this w) = Some socket →
  coherent w → coherent (joinRoom_on socket roomName p w).
Proof.
  intros Hsocket Hw. unfold joinRoom_on.
  destruct (joinedChannels (this w) !! roomName); [by apply coherent_settle|].
  destruct (Js.inherited roomName); [by apply coherent_settle|].
  destruct Hw as [H1 H2 H3 H4].
  set (channel := Channel.mk _ _ _).
  assert (joined_by (call (ChannelJoin channel) (AfterJoin channel roomName p) w)
            roomName channel) as Hchannel.
  { repeat split.
    - simpl. by rewrite lookup_app_r, Nat.sub_diag.
    - by exists (realm (this w)).
    - apply connected_by_call. simpl. by apply H1. }
  split; simpl.
  - intros s Hsock. by apply connected_by_call, H1.
  - intros r ch Hr. destruct (H2 _ _ Hr). split; [by apply joined_by_call|done].
  - intros ref s r q [[_ Hk]|[_ Hk]]%lookup_insert_Some; [done|].
    destruct (H3 _ _ _ _ Hk). split; [done|by apply connected_by_call].
  - intros ref ch r q [[<- Hk]|[_ Hk]]%lookup_insert_Some.
    + injection Hk as <- <- <-. by rewrite Hsocket.
    + destruct (H4 _ _ _ _ Hk) as (? & ? & ?).
      split; [done|]. split; [by apply joined_by_call|done].
Qed.

Lemma coherent_joinRoom_settling (roomName : string) p w :
  coherent w → coherent (joinRoom_settling p roomName w).
Proof.
  intros Hw. unfold joinRoom_settling, openSocketConnection.
  destruct (phoenixSocket (this w)) as [socket|] eqn:Hsocket;
    [by apply coherent_joinRoom_on|].
  destruct Hw as [H1 H2 H3 H4].
  set (socket := Socket.mk _ _ _ _).
  assert (connected_by (call (SocketConnect socket)
                          (AfterOpen socket roomName p) w) socket) as Hs.
  { unfold connected_by. simpl. by rewrite lookup_app_r, Nat.sub_diag. }
  split; simpl.
  - intros s Hsock. by apply connected_by_call, H1.
  - intros r ch Hr. destruct (H2 _ _ Hr). split; [by apply joined_by_call|done].
  - intros ref s r q [[<- Hk]|[_ Hk]]%lookup_insert_Some.
    + by injection Hk as <- <- <-.
    + destruct (H3 _ _ _ _ Hk). split; [done|by apply connected_by_call].
  - intros ref ch r q [[_ Hk]|[_ Hk]]%lookup_insert_Some; [done|].
    destruct (H4 _ _ _ _ Hk) as (? & ? & ?).
    split; [done|]. split; [by apply joined_by_call|done].
Qed.

Lemma coherent_deliver (e : Event) w : coherent w → coherent (deliver e w).
Proof.
  intros Hw. destruct e as [ref|ref|ref|ref|ref reply]; simpl;
    try by destruct (is_socket w ref); [apply coherent_dispatch|].
  - destruct (waiting w !! ref) as [[socket roomName p| |]|] eqn:Hwait;
      try done.
    apply coherent_joinRoom_settling.
    destruct Hw as [H1 H2 H3 H4]. destruct (H3 _ _ _ _ Hwait) as [_ Hsocket].
    split; simpl.
    + by intros s [= <-].
    + intros r ch Hr. destruct (H2 _ _ Hr). by split.
    + intros ref' s r q [_ Hk]%lookup_delete_Some. eauto.
    + intros ref' ch r q [_ Hk]%lookup_delete_Some.
      destruct (H4 _ _ _ _ Hk) as (? & ? & ?).
      split; [done|]. by split.
  - destruct (waiting w !! ref) as [[|channel roomName p|p]|] eqn:Hwait;
      try done; apply coherent_settle.
    + destruct Hw as [H1 H2 H3 H4].
      destruct (H4 _ _ _ _ Hwait) as (_ & Hchannel & Hsome).
      split; simpl; try done.
      * intros r ch [[<- <-]|[_ Hr]]%lookup_insert_Some; [done|]. eauto.
      * intros ref' s r q [_ Hk]%lookup_delete_Some. eauto.
      * intros ref' ch r q [_ Hk]%lookup_delete_Some. eauto.
    + by apply coherent_forget.
  - destruct (waiting w !! ref) as [[]|]; try done;
      first [by apply coherent_forget | by apply coherent_settle, coherent_forget].
Qed.

Lemma coherent_forgotten_room (roomName : string) w :
  coherent w →
  coherent (set_this (λ c,
              set_joinedChannels (delete roomName (joinedChannels c)) c) w).
Proof.
  intros [H1 H2 H3 H4]. split; simpl; try done.
  intros r ch [_ Hr]%lookup_delete_Some. eauto.
Qed.

Lemma coherent_step (a : Action) w : coherent w → coherent (step w a).
Proof.
  intros Hw. pose proof (coherent_new_promise w Hw) as Hw'.
  destruct a; simpl; try (by apply coherent_deliver).
  - by apply coherent_joinRoom_settling.
  - unfold listenForEvents. simpl.
    destruct (joinedChannels (this w) !! roomName);
      [|destruct (Js.inherited roomName)]; simpl;
      apply coherent_settle; [by apply coherent_call_only|done..].
  - unfold registerVolatileTrigger. simpl.
    destruct (joinedChannels (this w) !! roomName);
      [|destruct (Js.inherited roomName)]; simpl;
      first [by apply coherent_call_plain | by apply coherent_settle].
  - unfold leaveRoom. simpl.
    destruct (joinedChannels (this w) !! roomName);
      [|destruct (Js.inherited roomName)]; simpl;
      apply coherent_settle; [|done..].
    apply coherent_forgotten_room. by apply coherent_call_only.
  - by destruct Hw.
  - destruct Hw as [H1 H2 H3 H4]. unfold removeListener, set_this. simpl.
    by destruct (listeners (this w) !! eventName).
  - by destruct Hw.
Qed.

Lemma reachable_coherent (config : AstarteClientConfig) (history : list Action) :
  coherent (steps (boot config) history).
Proof.
  assert (∀ w, coherent w → coherent (steps w history)) as Hsteps.
  { induction history as [|a l IH]; intros w Hw; [done|].
    simpl. by apply IH, coherent_step. }
  apply Hsteps. split; simpl; try done; intros *; by rewrite lookup_empty.
Qed.

(** X6: in every state that a client reaches, each room of the registry
    has a channel that the client made for that room by a join handshake,
    under a topic [rooms:realm:room], on a socket that the client
    connected; and the client then holds a socket, one that it
    connected. *)
Theorem registry_rooms_were_joined (config : AstarteClientConfig)
    (history : list Action) (roomName : string) (channel : Channel.t) :
  joinedChannels (this (steps (boot config) history)) !! roomName = Some channel →
  (∃ r : string, Channel.topic channel = "rooms:" +:+ r +:+ ":" +:+ roomName)
  ∧ calls (steps (boot config) history) !! Channel.ref channel
    = Some (ChannelJoin channel)
  ∧ calls (steps (boot config) history) !! Socket.ref (Channel.socket channel)
    = Some (SocketConnect (Channel.socket channel))
  ∧ ∃ s : Socket.t,
      phoenixSocket (this (steps (boot config) history)) = Some s
      ∧ calls (steps (boot config) history) !! Socket.ref s
        = Some (SocketConnect s).
Proof.
  intros Hroom.
  destruct (reachable_coherent config history) as [H1 H2 _ _].
  destruct (H2 _ _ Hroom) as [(Hjoin & Htopic & Hsocket) [s Hs]].
  repeat split; try done. exists s. split; [done|]. by apply H1.
Qed.

(** *** Names and answers in the states that can be reached *)













(** *** One socket *)

Lemma settled_on_joinRoom_on (socket s : Socket.t) (roomName : string) p w :
  settled_on w s →
  settled_on (joinRoom_on socket roomName p w) s
  ∧ filter is_connect (calls (joinRoom_on socket roomName p w))
    = filter is_connect (calls w).
Proof.
  intros [Hs Hopen].
  split; [|by destruct (joinRoom_on_connections socket roomName p w)].
  unfold joinRoom_on.
  destruct (joinedChannels (this w) !! roomName);
    [|destruct (Js.inherited roomName)].
  - destruct (settle_parts p (Resolved (Joined t)) w) as (Ht & _ & Hw & _).
    split; by rewrite ?Ht, ?Hw.
  - destruct (settle_parts p (Resolved (Prototype roomName)) w)
      as (Ht & _ & Hw & _).
    split; by rewrite ?Ht, ?Hw.
  - split; [done|]. simpl. intros ref s' r q.
    intros [[_ Hk]|[_ Hk]]%lookup_insert_Some; [done|]. by eapply Hopen.
Qed.

Lemma settled_on_plain (s : Socket.t) w w' :
  phoenixSocket (this w') = phoenixSocket (this w) →
  waiting w' = waiting w → settled_on w s → settled_on w' s.
Proof. intros Ht Hw [Hs Hopen]. split; by rewrite ?Ht, ?Hw. Qed.

Lemma settled_on_forget (s : Socket.t) ref w :
  settled_on w s → settled_on (forget ref w) s.
Proof.
  intros [Hs Hopen]. split; [done|]. simpl.
  intros ref' s' r q [_ Hk]%lookup_delete_Some. by eapply Hopen.
Qed.

Lemma settled_on_call (s : Socket.t) (c : PhoenixCall) (k : Continuation) w :
  (∀ s' r q, k ≠ AfterOpen s' r q) →
  settled_on w s → settled_on (call c k w) s.
Proof.
  intros Hk [Hs Hopen]. split; [done|]. simpl.
  intros ref' s' r q [[_ Hk']|[_ Hk']]%lookup_insert_Some.
  - by eapply Hk.
  - by eapply Hopen.
Qed.

Lemma settled_on_settle (s : Socket.t) p o w :
  settled_on w s → settled_on (settle p o w) s.
Proof.
  destruct (settle_parts p o w) as (Ht & _ & Hw & _).
  apply settled_on_plain; [by rewrite Ht|done].
Qed.

Lemma calls_settle p o w : calls (settle p o w) = calls w.
Proof. by destruct (settle_parts p o w) as (_ & -> & _). Qed.

Lemma filter_is_connect_other (l : list PhoenixCall) (c : PhoenixCall) :
  is_connect c = false → filter is_connect (l ++ [c]) = filter is_connect l.
Proof.
  intros Hc. rewrite filter_app.
  destruct c; try discriminate Hc; apply app_nil_r.
Qed.

Lemma settled_on_step (s : Socket.t) (a : Action) w :
  settled_on w s →
  settled_on (step w a) s
  ∧ filter is_connect (calls (step w a)) = filter is_connect (calls w).
Proof.
  intros Hw. pose proof Hw as [Hs Hopen].
  assert (settled_on (new_promise w).1 s) as Hw' by done.
  destruct a as [r|r h|r t|r|e c|e c|params|e]; simpl.
  - unfold joinRoom_settling. simpl. rewrite Hs.
    by apply (settled_on_joinRoom_on s s r _ (new_promise w).1).
  - unfold listenForEvents. simpl.
    destruct (joinedChannels (this w) !! r); [|destruct (Js.inherited r)];
      simpl; rewrite calls_settle;
      (split; [by apply settled_on_settle|]); [|done..].
    simpl. by apply filter_is_connect_other.
  - unfold registerVolatileTrigger. simpl.
    destruct (joinedChannels (this w) !! r); [|destruct (Js.inherited r)];
      simpl.
    + split; [by apply settled_on_call|]. by apply filter_is_connect_other.
    + rewrite calls_settle. split; [by apply settled_on_settle|done].
    + rewrite calls_settle. split; [by apply settled_on_settle|done].
  - unfold leaveRoom. simpl.
    destruct (joinedChannels (this w) !! r); [|destruct (Js.inherited r)];
      simpl; rewrite calls_settle;
      (split; [by apply settled_on_settle|]); [|done..].
    simpl. by apply filter_is_connect_other.
  - done.
  - split; [|done]. unfold removeListener, set_this. split; [|done]. simpl.
    by destruct (listeners (this w) !! e).
  - done.
  - destruct e as [ref|ref|ref|ref|ref reply]; simpl;
      try by destruct (is_socket w ref).
    + destruct (waiting w !! ref) as [[s' r q| |]|] eqn:Hwait; try done.
      by destruct (Hopen _ _ _ _ Hwait).
    + destruct (waiting w !! ref) as [[| |]|]; try done;
        rewrite calls_settle; (split; [|done]); apply settled_on_settle;
        first [ by apply settled_on_forget
              | by apply (settled_on_plain s (forget ref w));
                  [| |apply settled_on_forget] ].
    + destruct (waiting w !! ref) as [[| |]|]; try done;
        rewrite ?calls_settle; (split; [|done]);
        try apply settled_on_settle; by apply settled_on_forget.
Qed.

(** X7: once the client holds a socket, and is opening no other, it
    keeps that socket and connects no other, whatever its callers and the
    library do afterwards: joins, leaves, socket errors and closes, and
    changes of credentials included. *)
Theorem socket_is_kept (s : Socket.t) (later : list Action) w :
  settled_on w s →
  phoenixSocket (this (steps w later)) = Some s
  ∧ filter is_connect (calls (steps w later)) = filter is_connect (calls w).
Proof.
  revert w. induction later as [|a l IH]; intros w Hw; [by destruct Hw|].
  simpl. destruct (settled_on_step s a w Hw) as [Hw' Hcalls].
  destruct (IH _ Hw') as [Hs Hl]. split; [done|]. by rewrite Hl.
Qed.

(** *** The rooms listed *)




(** *** Listeners *)

(** X9: a socket error calls the listeners of [socketError], and a
    socket close those of [socketClose], in the order in which they were
    added: a listener just added is called last, and only for its own
    event. *)
Theorem listeners_are_called_in_order w (eventName : string) (callback ref : nat) :
  is_socket w ref = true →
  fired (deliver (SocketError ref) (addListener eventName callback w))
  = fired w ++ default [] (listeners (this w) !! "socketError")
    ++ (if decide (eventName = "socketError") then [callback] else [])
  ∧ fired (deliver (SocketClose ref) (addListener eventName callback w))
    = fired w ++ default [] (listeners (this w) !! "socketClose")
      ++ (if decide (eventName = "socketClose") then [callback] else []).
Proof.
  intros Hsocket.
  assert (is_socket (addListener eventName callback w) ref = true) as Hs
    by exact Hsocket.
  cbn [deliver]. rewrite Hs. simpl.
  split; case_decide as He.
  - subst. by rewrite lookup_insert_eq.
  - by rewrite lookup_insert_ne, app_nil_r.
  - subst. by rewrite lookup_insert_eq.
  - by rewrite lookup_insert_ne, app_nil_r.
Qed.

(** X10: [removeListener] takes every registration of the callback out
    of the list of its event, and leaves the other callbacks, in their
    order, and the other event as they were: the callback is not among
    those that the next socket error calls. *)
Theorem removed_listener_is_not_called w (callback ref : nat) :
  is_socket w ref = true →
  let quiet := removeListener "socketError" callback w in
  fired (deliver (SocketError ref) quiet)
  = fired w ++ filter (λ listener, listener ≠ callback)
                 (default [] (listeners (this w) !! "socketError"))
  ∧ (callback
     ∉ drop (length (fired w)) (fired (deliver (SocketError ref) quiet)))
  ∧ fired (deliver (SocketClose ref) quiet)
    = fired w ++ default [] (listeners (this w) !! "socketClose")
  ∧ (listeners (this w) !! "socketError" = None → quiet = w).
Proof.
  intros Hsocket quiet.
  assert (is_socket quiet ref = true) as Hs by exact Hsocket.
  assert (fired (deliver (SocketError ref) quiet)
          = fired w ++ filter (λ listener, listener ≠ callback)
                         (default [] (listeners (this w) !! "socketError")))
    as Hfired.
  { cbn [deliver]. rewrite Hs. unfold quiet. simpl.
    destruct (listeners (this w) !! "socketError") as [l|] eqn:Hl; simpl.
    - by rewrite lookup_insert_eq.
    - by rewrite Hl. }
  split; [done|]. split; [|split].
  - rewrite Hfired, drop_app_length.
    intros [Hne _]%list_elem_of_filter. by destruct Hne.
  - cbn [deliver]. rewrite Hs. unfold quiet. simpl.
    destruct (listeners (this w) !! "socketError"); simpl; [|done].
    by rewrite lookup_insert_ne.
  - intros Hnone. unfold quiet, removeListener, set_this. rewrite Hnone.
    by destruct w as [[]].
Qed.

(** X11: [setCredentials] touches neither the socket nor the registry
    nor the library: a room joined afterwards (under a name that is not
    one of [Object.prototype]) is joined on the socket that is open, made
    with the credentials of its time, under the topic of the new realm. *)
Theorem setCredentials_keeps_socket w (roomName newRealm newToken : string)
    (socket : Socket.t) :
  phoenixSocket (this w) = Some socket →
  joinedChannels (this w) !! roomName = None →
  roomName ∉ Js.Object_prototype →
  let renamed := setCredentials (Some (newRealm, newToken)) w in
  phoenixSocket (this renamed) = Some socket
  ∧ joinedChannels (this renamed) = joinedChannels (this w)
  ∧ calls renamed = calls w
  ∧ realm (this renamed) = newRealm
  ∧ token (this renamed) = newToken
  ∧ calls (joinRoom roomName renamed).1
    = calls w ++ [ChannelJoin (Channel.mk (length (calls w)) socket
                                 ("rooms:" +:+ newRealm +:+ ":" +:+ roomName))].
Proof.
  intros Hsocket Hroom Hname renamed. repeat split; try done.
  by rewrite (joinRoom_handshake renamed roomName socket).
Qed.

End RoomOperations.

(** * Further properties of the requests *)

Section QueryTransport.
Import Js URLSearchParams.

Lemma pct_escape_urlencoded (c : ascii) :
  all urlencoded_byte (pct_escape c) = true.
Proof. destruct c as [[] [] [] [] [] [] [] []]; by vm_compute. Qed.

Lemma urlencoded_keep_byte (c : ascii) :
  urlencoded_keep c = true →
  urlencoded_byte c = true ∧ Ascii.eqb c "+" = false ∧ Ascii.eqb c "%" = false.
Proof.
  destruct c as [[] [] [] [] [] [] [] []]; vm_compute; intros Hc;
    first [discriminate Hc | done].
Qed.

Lemma serialize_bytes_urlencoded (s : string) :
  all urlencoded_byte (serialize_bytes s) = true.
Proof.
  induction s as [|c s IH]; [done|]. simpl.
  destruct (Ascii.eqb c " "); [by rewrite all_app, IH|].
  destruct (urlencoded_keep c) eqn:Hc.
  - rewrite all_app, IH. simpl.
    by destruct (urlencoded_keep_byte c Hc) as (-> & _).
  - by rewrite all_app, pct_escape_urlencoded, IH.
Qed.

Lemma plus_to_space_app (s t : string) :
  plus_to_space (s +:+ t) = plus_to_space s +:+ plus_to_space t.
Proof.
  induction s as [|c s IH]; [done|].
  rewrite append_String. simpl. by rewrite IH.
Qed.

Lemma plus_to_space_escape (c : ascii) :
  plus_to_space (pct_escape c) = pct_escape c.
Proof. destruct c as [[] [] [] [] [] [] [] []]; by vm_compute. Qed.

(** The parser's decoding undoes the serializer's encoding. *)
Lemma decode_serialize_bytes (s : string) : decode (serialize_bytes s) = s.
Proof.
  unfold decode. induction s as [|c s IH]; [done|]. simpl.
  destruct (Ascii.eqb_spec c " ") as [->|_].
  - rewrite append_String, append_empty_l. simpl. by rewrite IH.
  - destruct (urlencoded_keep c) eqn:Hc.
    + destruct (urlencoded_keep_byte c Hc) as (_ & Hplus & Hpct).
      rewrite append_String, append_empty_l. simpl.
      by rewrite Hplus, Hpct, IH.
    + by rewrite plus_to_space_app, plus_to_space_escape,
        percent_decode_escape, IH.
Qed.

Lemma cut_at_equals (n v : string) :
  all (λ c, negb (Ascii.eqb c "=")) n = true →
  cut (n +:+ "=" +:+ v) = (n, v).
Proof.
  induction n as [|c n IH]; [done|]. rewrite append_String. simpl.
  intros [Hc Hn]%andb_true_iff. apply negb_true_iff in Hc.
  by rewrite Hc, IH.
Qed.

Lemma urlencoded_byte_inert (c : ascii) :
  urlencoded_byte c = true →
  Ascii.eqb c "=" = false ∧ Ascii.eqb c "&" = false.
Proof.
  destruct c as [[] [] [] [] [] [] [] []]; vm_compute; intros Hc;
    first [discriminate Hc | done].
Qed.

Lemma piece_no_separator (p : string * string) :
  all (λ c, negb (Ascii.eqb c "&")) (piece p) = true.
Proof.
  unfold piece. rewrite !all_app, !andb_true_iff.
  repeat split; (eapply all_impl; [|apply serialize_bytes_urlencoded]);
    intros c Hc; by destruct (urlencoded_byte_inert c Hc) as (_ & ->).
Qed.

Lemma parse_piece (p : string * string) (pieces : list string) :
  parse_pieces (piece p :: pieces) = p :: parse_pieces pieces.
Proof.
  destruct p as [n v]. unfold parse_pieces, piece. cbn [fst snd].
  assert (cut (serialize_bytes n +:+ "=" +:+ serialize_bytes v)
          = (serialize_bytes n, serialize_bytes v)) as Hcut.
  { apply cut_at_equals.
    eapply all_impl; [|apply serialize_bytes_urlencoded].
    intros c Hc. by destruct (urlencoded_byte_inert c Hc) as (-> & _). }
  destruct (serialize_bytes n +:+ "=" +:+ serialize_bytes v) as [|c s] eqn:Hs.
  { by destruct (serialize_bytes n). }
  cbn [omap list_omap]. by rewrite Hcut, !decode_serialize_bytes.
Qed.

Lemma toString_cons (p : string * string) (l : list (string * string)) :
  toString (p :: l)
  = piece p +:+ match l with [] => "" | _ => "&" +:+ toString l end.
Proof. destruct p as [n v]. unfold piece. simpl. by rewrite !append_assoc. Qed.

Lemma parse_toString (l : list (string * string)) :
  parse_pieces (split "&" (toString l)) = l.
Proof.
  induction l as [|p l IH]; [done|].
  rewrite toString_cons.
  destruct (split_piece "&" _ (piece_no_separator p)) as [Hone Hmore].
  destruct l as [|p' l].
  - by rewrite append_empty_r, Hone, parse_piece.
  - rewrite append_String, append_empty_l, Hmore, parse_piece. by rewrite IH.
Qed.

Lemma toString_query_bytes (l : list (string * string)) :
  all query_byte (toString l) = true.
Proof.
  assert (∀ s, all query_byte (serialize_bytes s) = true) as Hbytes.
  { intros s. eapply all_impl; [|apply serialize_bytes_urlencoded].
    intros c Hc. unfold query_byte. by rewrite Hc. }
  induction l as [|p l IH]; [done|].
  rewrite toString_cons. unfold piece. rewrite !all_app, !Hbytes.
  destruct l; [done|]. rewrite append_String, append_empty_l.
  change (all query_byte (String "&" ?s)) with (all query_byte s).
  by rewrite IH.
Qed.

Lemma query_byte_inert (c : ascii) :
  query_byte c = true →
  Ascii.eqb c "?" = false ∧ URL.tab_or_newline c = false
  ∧ URL.encode_char URL.special_query_set c = String c EmptyString.
Proof.
  destruct c as [[] [] [] [] [] [] [] []]; vm_compute; intros Hc;
    first [discriminate Hc | done].
Qed.

Lemma query_bytes_kept (s : string) :
  all query_byte s = true →
  URL.encode URL.special_query_set (URL.remove_tab_newline s) = s.
Proof.
  induction s as [|c s IH]; [done|]. simpl.
  intros [Hc Hs]%andb_true_iff.
  destruct (query_byte_inert c Hc) as (_ & -> & Henc). simpl.
  by rewrite Henc, IH.
Qed.

(** The round trip of the urlencoded format: the parser gives back the
    list that the serializer was given. *)
Lemma urlencoded_round_trip (l : list (string * string)) :
  of_string (Some (toString l)) = l.
Proof.
  unfold of_string.
  pose proof (toString_query_bytes l) as Hbytes.
  pose proof (parse_toString l) as Hparse.
  destruct (toString l) as [|c s]; [done|].
  simpl in Hbytes. apply andb_true_iff in Hbytes as [Hc _].
  by destruct (query_byte_inert c Hc) as (-> & _).
Qed.

(** The [search] setter stores the serialized list as it is, and no
    query for the empty list. *)
Lemma set_search_toString (l : list (string * string)) (u : URL.t) :
  URL.query (URL.set_search (toString l) u)
  = match l with [] => None | _ => Some (toString l) end.
Proof.
  pose proof (toString_query_bytes l) as Hbytes.
  destruct l as [|p l]; [done|].
  destruct (toString (p :: l)) as [|c s] eqn:Hs.
  { rewrite toString_cons in Hs. unfold piece in Hs.
    by destruct (serialize_bytes p.1). }
  unfold URL.set_search. cbn [URL.query].
  pose proof Hbytes as Hall.
  simpl in Hbytes. apply andb_true_iff in Hbytes as [Hc _].
  destruct (query_byte_inert c Hc) as (-> & _).
  by rewrite query_bytes_kept.
Qed.

End QueryTransport.

Section RequestProperties.
Context `{Imports}.
Implicit Types (this : AstarteClient) (server : Server) (log : list Request).
Import Js.

(** An operation that awaits one request: the request is logged, and a
    rejection of the backend is the rejection of the operation. *)
Lemma await_axios {A} (r : Request) (k : Response → Http A) server log :
  (axios r ≫= k) server log
  = match server log r with
    | Resolved response => k response server (log ++ [r])
    | Rejected e => (Rejected e, log ++ [r])
    end.
Proof. unfold mbind, Http_bind, await, axios. by destruct (server log r). Qed.

Lemma deleting_spec this (u : URL.t) server log :
  let r := request this DELETE (URL.toString u) json None in
  deleting this u server log = (discard (server log r), log ++ [r]).
Proof.
  intros r. unfold deleting, _delete. rewrite await_axios. fold r.
  by destruct (server log r).
Qed.

Lemma probing_spec this (u : URL.t) server log :
  let r := request this GET (URL.toString u) json None in
  probing this u server log = (discard (server log r), log ++ [r]).
Proof.
  intros r. unfold probing, _get. rewrite await_axios. fold r.
  by destruct (server log r).
Qed.

(** The relative reference of an entry with the realm and one
    identifier. *)
Lemma endpoint_identifier (literal key r id : string)
    (params : gmap string string) :
  params !! "realm" = Some r → params !! key = Some id →
  endpointUrl [""; "v1/"; literal; ""] ["realm"; key] params
  = "v1/" +:+ r +:+ literal +:+ id +:+ "".
Proof. unfold endpointUrl. cbn [map]. intros -> ->. reflexivity. Qed.

Lemma endpoint_realm (literal r : string) (params : gmap string string) :
  params !! "realm" = Some r →
  endpointUrl [""; "v1/"; literal] ["realm"] params
  = "v1/" +:+ r +:+ literal +:+ "".
Proof. unfold endpointUrl. cbn [map]. intros ->. reflexivity. Qed.

(** Whatever the parser takes for a dot segment decodes to a dot or to
    two dots. *)
Lemma dot_segment_decodes_once (x : string) :
  URL.single_dot x || URL.double_dot x = true →
  percent_decode x = "." ∨ percent_decode x = "..".
Proof.
  unfold URL.single_dot, URL.double_dot.
  rewrite !orb_true_iff, !String.eqb_eq.
  intros [[Hx|Hx]|[[[Hx|Hx]|Hx]|Hx]];
    repeat match type of Hx with
      | URL.lowercase _ = String _ _ =>
          let Hc := fresh "Hc" in
          apply lowercase_cons_inv in Hx as (? & ? & -> & Hc & Hx);
          first [ apply lower_inv in Hc as ->; [|reflexivity]
                | apply lower_inv_e in Hc as [-> | ->] ]
      | URL.lowercase _ = EmptyString => apply lowercase_nil_inv in Hx as ->
      end; vm_compute; auto.
Qed.

(** One encoding of a name is a plain segment, unless the name is a dot
    or two dots. *)
Lemma single_encoding_plain (name : string) :
  name ≠ "." → name ≠ ".." →
  URL.plain_segment (encodeURIComponent name) = true.
Proof.
  intros H1 H2. unfold URL.plain_segment.
  rewrite encodeURIComponent_segment_chars. simpl.
  rewrite <- negb_orb. apply negb_true_iff.
  destruct (URL.single_dot _ || URL.double_dot _) eqn:Hdot; [|done].
  apply dot_segment_decodes_once in Hdot.
  rewrite percent_decode_encodeURIComponent in Hdot. by destruct Hdot.
Qed.

(** How an entry of the table with the realm and one identifier
    resolves. *)
Ltac resolve_entry :=
  unfold astarteAPIurl;
  first [ erewrite endpoint_identifier by (unfold config; by simplify_map_eq)
        | erewrite endpoint_realm by (unfold config; by simplify_map_eq) ];
  match goal with
  | |- URL.resolve _ ?base = URL.mk _ _ (_ ++ ?first :: ?segs) None None =>
      apply (resolve_plain first segs base); [done|done|by repeat constructor]
  end.

(** X12: [deleteTrigger] makes one request: a DELETE, with the bearer
    token of the client and no payload, to the trigger whose path
    segment is the single percent-encoding of the name; it settles as
    the backend does, and one percent-decoding pass on that segment
    gives the name back.  The name is any but a dot and two dots, the
    empty name included; the realm is a plain path segment. *)
Theorem deleteTrigger_encoded_once this (triggerName : string) server log :
  triggerName ≠ "." → triggerName ≠ ".." →
  URL.plain_segment (realm this) = true →
  let base := realmManagementApiUrl (urls this) in
  let segment := encodeURIComponent triggerName in
  let r := {| method := DELETE;
              url := URL.toString
                       (URL.mk (URL.scheme base) (URL.authority base)
                          (URL.shorten (URL.path base)
                           ++ ["v1"; realm this; "triggers"; segment])
                          None None);
              Authorization := "Bearer " +:+ token this;
              Content_Type := "application/json;charset=UTF-8";
              request_data := None |} in
  deleteTrigger this triggerName server log
  = (match server log r with
     | Resolved _ => Resolved ()
     | Rejected e => Rejected e
     end, log ++ [r])
  ∧ percent_decode segment = triggerName.
Proof.
  intros Hdot Hdots Hrealm base segment r.
  pose proof (single_encoding_plain triggerName Hdot Hdots) as Hsegment.
  fold segment in Hsegment.
  split; [|apply percent_decode_encodeURIComponent].
  unfold deleteTrigger. rewrite deleting_spec. fold segment.
  assert (apiConfig.trigger this (<["triggerName" := segment]> (config this))
          = URL.mk (URL.scheme base) (URL.authority base)
              (URL.shorten (URL.path base)
               ++ ["v1"; realm this; "triggers"; segment]) None None) as ->.
  { unfold apiConfig.trigger. resolve_entry. }
  unfold request, bearer, json. fold r. by destruct (server log r).
Qed.

(** X13: the deletions that take an identifier as it is (a delivery
    policy, a device, the credentials of a device, a flow, a pipeline)
    make one request each: a DELETE, with the bearer token of the client
    and no payload, to the resource of that identifier under the base URL
    of their service; they settle as the backend does.  The realm and the
    identifier are plain path segments: neither is encoded. *)
Theorem deletions_by_identifier this (id : string) server log :
  URL.plain_segment (realm this) = true →
  URL.plain_segment id = true →
  let delete (base : URL.t) (segments : list string) : Request :=
    {| method := DELETE;
       url := URL.toString
                (URL.mk (URL.scheme base) (URL.authority base)
                   (URL.shorten (URL.path base)
                    ++ "v1" :: realm this :: segments)
                   None None);
       Authorization := "Bearer " +:+ token this;
       Content_Type := "application/json;charset=UTF-8";
       request_data := None |} in
  let settles (operation : Http unit) (r : Request) :=
    operation server log
    = (match server log r with
       | Resolved _ => Resolved ()
       | Rejected e => Rejected e
       end, log ++ [r]) in
  settles (deleteTriggerDeliveryPolicy this id)
          (delete (realmManagementApiUrl (urls this)) ["policies"; id])
  ∧ settles (deleteDevice this id)
            (delete (realmManagementApiUrl (urls this)) ["devices"; id])
  ∧ settles (wipeDeviceCredentials this id)
            (delete (pairingApiUrl (urls this)) ["agent"; "devices"; id])
  ∧ settles (deleteFlowInstance this id)
            (delete (flowApiUrl (urls this)) ["flows"; id])
  ∧ settles (deletePipeline this id)
            (delete (flowApiUrl (urls this)) ["pipelines"; id]).
Proof.
  intros Hrealm Hid delete settles. unfold settles, delete.
  unfold deleteTriggerDeliveryPolicy, deleteDevice, wipeDeviceCredentials,
    deleteFlowInstance, deletePipeline.
  rewrite !deleting_spec.
  assert (apiConfig.policy this (<["policyName" := id]> (config this))
          = URL.mk (URL.scheme (realmManagementApiUrl (urls this)))
              (URL.authority (realmManagementApiUrl (urls this)))
              (URL.shorten (URL.path (realmManagementApiUrl (urls this)))
               ++ ["v1"; realm this; "policies"; id]) None None) as ->.
  { unfold apiConfig.policy. resolve_entry. }
  assert (apiConfig.device this (<["deviceId" := id]> (config this))
          = URL.mk (URL.scheme (realmManagementApiUrl (urls this)))
              (URL.authority (realmManagementApiUrl (urls this)))
              (URL.shorten (URL.path (realmManagementApiUrl (urls this)))
               ++ ["v1"; realm this; "devices"; id]) None None) as ->.
  { unfold apiConfig.device. resolve_entry. }
  assert (apiConfig.deviceAgent this
            (<["realm" := realm this]> {[ "deviceId" := id ]})
          = URL.mk (URL.scheme (pairingApiUrl (urls this)))
              (URL.authority (pairingApiUrl (urls this)))
              (URL.shorten (URL.path (pairingApiUrl (urls this)))
               ++ ["v1"; realm this; "agent"; "devices"; id]) None None) as ->.
  { unfold apiConfig.deviceAgent. resolve_entry. }
  assert (apiConfig.flowInstance this (<["instanceName" := id]> (config this))
          = URL.mk (URL.scheme (flowApiUrl (urls this)))
              (URL.authority (flowApiUrl (urls this)))
              (URL.shorten (URL.path (flowApiUrl (urls this)))
               ++ ["v1"; realm this; "flows"; id]) None None) as ->.
  { unfold apiConfig.flowInstance. resolve_entry. }
  assert (apiConfig.pipelineSource this (<["pipelineId" := id]> (config this))
          = URL.mk (URL.scheme (flowApiUrl (urls this)))
              (URL.authority (flowApiUrl (urls this)))
              (URL.shorten (URL.path (flowApiUrl (urls this)))
               ++ ["v1"; realm this; "pipelines"; id]) None None) as ->.
  { unfold apiConfig.pipelineSource. resolve_entry. }
  unfold request, bearer, json, discard. done.
Qed.

(** X14: each health check makes one request: a GET, with the bearer
    token of the client and no payload, to [health] in place of the last
    path segment of the base URL of its service; it resolves exactly when
    the backend does.  The realm has no part in it. *)
Theorem health_checks this server log :
  let probe (base : URL.t) : Request :=
    {| method := GET;
       url := URL.toString
                (URL.mk (URL.scheme base) (URL.authority base)
                   (URL.shorten (URL.path base) ++ ["health"]) None None);
       Authorization := "Bearer " +:+ token this;
       Content_Type := "application/json;charset=UTF-8";
       request_data := None |} in
  let settles (operation : Http unit) (r : Request) :=
    operation server log
    = (match server log r with
       | Resolved _ => Resolved ()
       | Rejected e => Rejected e
       end, log ++ [r]) in
  settles (getRealmManagementHealth this)
          (probe (realmManagementApiUrl (urls this)))
  ∧ settles (getAppengineHealth this) (probe (appEngineApiUrl (urls this)))
  ∧ settles (getPairingHealth this) (probe (pairingApiUrl (urls this)))
  ∧ settles (getFlowHealth this) (probe (flowApiUrl (urls this))).
Proof.
  intros probe settles. unfold settles, probe.
  unfold getRealmManagementHealth, getAppengineHealth, getPairingHealth,
    getFlowHealth.
  rewrite !probing_spec.
  assert (∀ base params,
            astarteAPIurl [""; "health"] base [] params
            = URL.mk (URL.scheme base) (URL.authority base)
                (URL.shorten (URL.path base) ++ ["health"]) None None)
    as Hhealth.
  { intros base params. unfold astarteAPIurl.
    by apply (resolve_plain "health" [] base). }
  unfold apiConfig.realmManagementHealth, apiConfig.appengineHealth,
    apiConfig.pairingHealth, apiConfig.flowHealth.
  rewrite !Hhealth. unfold request, bearer, json, discard. done.
Qed.

(** X15: the template resolves its reference against the base URL as a
    link is resolved against a page: the last path segment of the base
    URL is replaced and its query is dropped.  A base URL written without
    a trailing slash loses its last segment. *)
Theorem astarteAPIurl_replaces_last_segment (strings keys : list string)
    (params : gmap string string) (base : URL.t)
    (directories : list string) (last first : string) (segments : list string) :
  URL.path base = directories ++ [last] →
  endpointUrl strings keys params = first +:+ URL.serialize_path segments →
  first ≠ "" →
  URL.plain_segment first = true →
  Forall (λ s, URL.plain_segment s = true) segments →
  astarteAPIurl strings base keys params
  = URL.mk (URL.scheme base) (URL.authority base)
      (directories ++ first :: segments) None None.
Proof.
  intros Hpath Hendpoint Hne Hfirst Hsegments. unfold astarteAPIurl.
  rewrite Hendpoint, resolve_plain by done.
  unfold URL.shorten. by rewrite Hpath, removelast_last.
Qed.

Lemma join_values (literals values values' : list (option string)) :
  Forall2 (λ v v', default "" v = default "" v') values values' →
  join (Lodash.flatten (Lodash.zip literals values))
  = join (Lodash.flatten (Lodash.zip literals values')).
Proof.
  intros Hvalues. revert literals.
  induction Hvalues as [|v v' values values' Hv _ IH]; intros literals; [done|].
  assert (∀ rest rest', join rest = join rest' →
            join (v :: rest) = join (v' :: rest')) as Hjoin.
  { intros rest rest' Hrest. destruct v, v'; simpl in *; subst;
      by rewrite ?Hrest, ?append_empty_l. }
  destruct literals as [|[literal|] literals]; simpl.
  - apply Hjoin, (IH []).
  - f_equal. apply Hjoin, IH.
  - apply Hjoin, IH.
Qed.

(** X16: the reference of an entry depends on the values of the
    parameters that the entry names, and on nothing else in the record;
    a parameter that is missing counts as the empty string. *)
Theorem endpointUrl_reads_named_parameters (strings keys : list string)
    (params params' : gmap string string) :
  Forall (λ key, default "" (params !! key) = default "" (params' !! key)) keys →
  endpointUrl strings keys params = endpointUrl strings keys params'.
Proof.
  intros Hkeys. unfold endpointUrl. apply join_values.
  induction Hkeys; by constructor.
Qed.

(** What the backend reads in the query of [getDevices]. *)
Lemma getDevices_query_sent this (params : GetDevicesParams) :
  URLSearchParams.of_string
    (URL.query
       (URL.set_search (URLSearchParams.toString (getDevices_query params))
          (apiConfig.devices this (config this))))
  = getDevices_query params.
Proof.
  rewrite set_search_toString.
  destruct (getDevices_query params) eqn:Hquery; [done|].
  apply urlencoded_round_trip.
Qed.

Lemma Number_toString_safe (n : N) :
  (n < 2 ^ 53)%N → Number_toString n = pretty n.
Proof.
  intros Hn. apply N.ltb_lt in Hn. unfold Number_toString, to_double.
  by rewrite !Hn.
Qed.

(** X17: [getDevices] makes one request: a GET, with the bearer token of
    the client and no payload, to the devices of the realm (a plain path
    segment), with a query that, read by the urlencoded parser, is the
    list of the parameters that are truthy: [details] when true, [limit]
    when not zero, written as JavaScript prints the number (its decimal
    digits below [2 ^ 53]), and the token when not empty, whatever bytes
    it holds. *)
Theorem getDevices_sends_truthy_parameters this (params : GetDevicesParams)
    server log :
  URL.plain_segment (realm this) = true →
  let base := appEngineApiUrl (urls this) in
  let query : list (string * string) :=
    (match details params with Some true => [("details", "true")] | _ => [] end)
    ++ (match limit params with
        | Some n => if (n =? 0)%N then [] else [("limit", Number_toString n)]
        | None => []
        end)
    ++ (match from params with
        | Some t => if falsy t then [] else [("from_token", t)]
        | None => []
        end) in
  let u := URL.mk (URL.scheme base) (URL.authority base)
             (URL.shorten (URL.path base) ++ ["v1"; realm this; "devices"])
             (match query with
              | [] => None
              | _ => Some (URLSearchParams.toString query)
              end) None in
  let sent := URLSearchParams.of_string (URL.query u) in
  (getDevices this params server log).2
  = log ++ [{| method := GET; url := URL.toString u;
               Authorization := "Bearer " +:+ token this;
               Content_Type := "application/json;charset=UTF-8";
               request_data := None |}]
  ∧ sent = query
  ∧ URLSearchParams.get "details" sent
    = match details params with Some true => Some "true" | _ => None end
  ∧ URLSearchParams.get "limit" sent
    = match limit params with
      | Some n => if (n =? 0)%N then None else Some (Number_toString n)
      | None => None
      end
  ∧ (∀ n, limit params = Some n → (0 < n < 2 ^ 53)%N →
       URLSearchParams.get "limit" sent = Some (pretty n))
  ∧ URLSearchParams.get "from_token" sent
    = match from params with
      | Some t => if falsy t then None else Some t
      | None => None
      end.
Proof.
  intros Hrealm base query u sent.
  assert (apiConfig.devices this (config this)
          = URL.mk (URL.scheme base) (URL.authority base)
              (URL.shorten (URL.path base) ++ ["v1"; realm this; "devices"])
              None None) as Hdevices.
  { unfold apiConfig.devices. resolve_entry. }
  assert (URL.set_search (URLSearchParams.toString (getDevices_query params))
            (apiConfig.devices this (config this)) = u) as Hu.
  { pose proof (set_search_toString (getDevices_query params)
                  (apiConfig.devices this (config this))) as Hquery.
    rewrite Hdevices in *. unfold u.
    change (getDevices_query params) with query in *.
    destruct (URLSearchParams.toString query) eqn:Hstring; simpl in *.
    - by rewrite <- Hquery.
    - by rewrite <- Hquery. }
  assert (sent = query) as Hsent.
  { unfold sent. rewrite <- Hu. apply getDevices_query_sent. }
  assert (URLSearchParams.get "limit" query
          = match limit params with
            | Some n => if (n =? 0)%N then None else Some (Number_toString n)
            | None => None
            end) as Hlimit.
  { unfold query. destruct params as [[[]|] [t|] [n|]]; simpl;
      repeat match goal with
        | |- context [falsy ?t] => destruct (falsy t)
        | |- context [(?n =? 0)%N] => destruct (n =? 0)%N
        end; done. }
  split; [|split; [done|split; [|split; [|split]]]].
  - unfold getDevices. rewrite Hu. unfold _get.
    rewrite await_axios_log; [done|].
    intros response s l. unfold mbind, Http_bind, await.
    pose proof (devices_of_log response s l) as Hlog.
    destruct (devices_of response s l) as [[devices|e] l']; simpl in Hlog;
      subst l'; [|done].
    by destruct (response_links response).
  - rewrite Hsent. unfold query.
    destruct params as [[[]|] [t|] [n|]]; simpl;
      repeat match goal with
        | |- context [falsy ?t] => destruct (falsy t)
        | |- context [(?n =? 0)%N] => destruct (n =? 0)%N
        end; done.
  - by rewrite Hsent.
  - intros n Hn [Hpos Hsafe]. rewrite Hsent, Hlimit, Hn.
    destruct (N.eqb_spec n 0) as [->|_]; [lia|].
    by rewrite Number_toString_safe.
  - rewrite Hsent. unfold query.
    destruct params as [[[]|] [t|] [n|]]; simpl;
      repeat match goal with
        | |- context [falsy ?t] => destruct (falsy t)
        | |- context [(?n =? 0)%N] => destruct (n =? 0)%N
        end; done.
Qed.

(** X18: a failure of the transport is the failure of the operation:
    when the backend rejects, the operation rejects with the same reason
    after one request, and makes no second attempt. *)
Theorem transport_error_is_propagated this server log (e : JsError)
    (params : GetDevicesParams)
    (groupName deviceId blockId triggerName : string)
    (details : option bool) (block : AstarteCustomBlock.t) :
  (∀ l r, server l r = Rejected e) →
  groupName ≠ "" → deviceId ≠ "" →
  blockId ∉ map AstarteBlockDTO.name definitions_blocks →
  AstarteCustomBlock.name block ∉ map AstarteBlockDTO.name definitions_blocks →
  let fails {A} (operation : Http A) :=
    ∃ r, operation server log = (Rejected e, log ++ [r]) in
  fails (getDevices this params)
  ∧ fails (getDevicesInGroup this groupName details)
  ∧ fails (addDeviceToGroup this groupName deviceId)
  ∧ fails (removeDeviceFromGroup this groupName deviceId)
  ∧ fails (getBlocks this)
  ∧ fails (getBlock this blockId)
  ∧ fails (registerBlock this block)
  ∧ fails (deleteBlock this blockId)
  ∧ fails (deleteTrigger this triggerName)
  ∧ fails (deleteDevice this deviceId)
  ∧ fails (getAppengineHealth this).
Proof.
  intros Hserver Hgroup Hdevice Hblock Hname fails. unfold fails.
  apply includes_false in Hblock, Hname.
  unfold getDevices, getDevicesInGroup, addDeviceToGroup,
    removeDeviceFromGroup, getBlocks, getBlock, registerBlock, deleteBlock,
    deleteTrigger, deleteDevice, getAppengineHealth, deleting, probing.
  rewrite (falsy_false groupName Hgroup), (falsy_false deviceId Hdevice),
    Hblock, Hname.
  unfold _get, _post, _delete.
  repeat split; eexists;
    repeat (unfold mbind, Http_bind, await at 1; rewrite ?await_axios);
    unfold axios; rewrite Hserver; reflexivity.
Qed.

(** X19: pagination.  When the answer has no next link, the token of
    [getDevices] is [null].  When the next link is a bare query string
    that starts with a token free of separators and escapes, the token is
    returned, and the call that passes it on as [from] asks the backend
    for [from_token] with that very value. *)
Theorem getDevices_pagination this (params : GetDevicesParams) server log
    (l : list AstarteDeviceDTO) (self next : option string) :
  server log (getDevices_request this params)
  = Resolved {| response_data := Devices l;
                response_links := Some {| self := self; next := next |} |} →
  (next = None →
   getDevices this params server log
   = (Resolved (map fromAstarteDeviceDTO l, None),
      log ++ [getDevices_request this params]))
  ∧ (∀ (mark : bool) (t rest : string),
       all (λ c, negb (mem c "&=+%")) t = true → t ≠ "" →
       rest = "" ∨ (∃ r, rest = String "&" r) →
       next = Some ((if mark then "?" else "") +:+ "from_token=" +:+ t +:+ rest) →
       getDevices this params server log
       = (Resolved (map fromAstarteDeviceDTO l, Some t),
          log ++ [getDevices_request this params])
       ∧ let following := {| details := details params; from := Some t;
                             limit := limit params |} in
         URLSearchParams.get "from_token"
           (URLSearchParams.of_string
              (URL.query
                 (URL.set_search
                    (URLSearchParams.toString (getDevices_query following))
                    (apiConfig.devices this (config this)))))
         = Some t).
Proof.
  intros Hserver. split.
  - intros ->. by rewrite (getDevices_nextToken _ _ _ _ l _ Hserver).
  - intros mark t rest Ht Hne Hrest ->.
    rewrite (getDevices_nextToken _ _ _ _ l _ Hserver). cbn [next].
    rewrite (from_token_of_query_string mark t rest Ht Hrest).
    split; [done|]. rewrite getDevices_query_sent.
    unfold getDevices_query. cbn [details limit from].
    rewrite (falsy_false t Hne).
    destruct (details params) as [[]|], (limit params) as [n|]; simpl;
      try destruct (n =? 0)%N; done.
Qed.

(** A name that the form of a new block accepts is a plain path segment
    that [encodeURIComponent] would leave as it is. *)
Lemma name_head (c : ascii) :
  is_alpha c = true →
  URL.segment_char c = true ∧ uriUnescaped c = true
  ∧ Ascii.eqb (URL.lower c) "." = false ∧ Ascii.eqb (URL.lower c) "%" = false.
Proof.
  destruct c as [[] [] [] [] [] [] [] []]; vm_compute; intros Hc;
    first [discriminate Hc | done].
Qed.

Lemma name_tail (c : ascii) :
  is_alnum c || mem c "-_" = true →
  URL.segment_char c = true ∧ uriUnescaped c = true.
Proof.
  destruct c as [[] [] [] [] [] [] [] []]; vm_compute; intros Hc;
    first [discriminate Hc | done].
Qed.

Lemma encodeURIComponent_kept (s : string) :
  all uriUnescaped s = true → encodeURIComponent s = s.
Proof.
  induction s as [|c s IH]; [done|]. simpl.
  intros [-> Hs]%andb_true_iff. by rewrite IH.
Qed.

Lemma isValidBlockName_plain (name : string) :
  NewBlockPage.isValidBlockName name = true →
  name ≠ "" ∧ name ≠ "new" ∧ URL.plain_segment name = true
  ∧ encodeURIComponent name = name.
Proof.
  unfold NewBlockPage.isValidBlockName.
  intros [Hname Hnew]%andb_true_iff.
  apply negb_true_iff, String.eqb_neq in Hnew.
  destruct name as [|c rest]; [done|].
  apply andb_true_iff in Hname as [Hc Hrest].
  destruct (name_head c Hc) as (Hsegment & Hkept & Hdot & Hpct).
  split; [done|]. split; [done|]. split.
  - unfold URL.plain_segment, URL.single_dot, URL.double_dot.
    cbn [all URL.lowercase String.eqb]. rewrite Hsegment, Hdot, Hpct.
    cbn [andb orb negb].
    rewrite !andb_true_r. eapply all_impl; [|exact Hrest].
    intros d Hd. by destruct (name_tail d Hd).
  - apply encodeURIComponent_kept. cbn [all]. rewrite Hkept.
    eapply all_impl; [|exact Hrest].
    intros d Hd. by destruct (name_tail d Hd).
Qed.

(** X20: a name that the form of a new block accepts, and that no
    built-in block bears, addresses a block of its own (the realm being
    a plain path segment): [registerBlock] makes one POST of the block to
    the blocks of the realm, and [getBlock] and [deleteBlock] make their
    one request, a GET and a DELETE, to the path that ends with the name
    itself, which needs no escaping; all with the bearer token of the
    client. *)
Theorem valid_block_name_addresses_block this (block : AstarteCustomBlock.t)
    server log :
  let name := AstarteCustomBlock.name block in
  let base := flowApiUrl (urls this) in
  NewBlockPage.isValidBlockName name = true →
  name ∉ map AstarteBlockDTO.name definitions_blocks →
  URL.plain_segment (realm this) = true →
  let sends (m : Method) (segments : list string) (data : option Body)
      : Request :=
    {| method := m;
       url := URL.toString
                (URL.mk (URL.scheme base) (URL.authority base)
                   (URL.shorten (URL.path base)
                    ++ "v1" :: realm this :: segments)
                   None None);
       Authorization := "Bearer " +:+ token this;
       Content_Type := "application/json;charset=UTF-8";
       request_data := data |} in
  (registerBlock this block server log).2
  = log ++ [sends POST ["blocks"] (Some (CustomBlock block))]
  ∧ (getBlock this name server log).2 = log ++ [sends GET ["blocks"; name] None]
  ∧ (deleteBlock this name server log).2
    = log ++ [sends DELETE ["blocks"; name] None]
  ∧ encodeURIComponent name = name.
Proof.
  intros name base Hvalid Hname Hrealm sends.
  destruct (isValidBlockName_plain name Hvalid) as (_ & _ & Hplain & Hkept).
  apply includes_false in Hname.
  assert (apiConfig.blockSource this (<["blockId" := name]> (config this))
          = URL.mk (URL.scheme base) (URL.authority base)
              (URL.shorten (URL.path base) ++ ["v1"; realm this; "blocks"; name])
              None None) as Hsource.
  { unfold apiConfig.blockSource. resolve_entry. }
  assert (apiConfig.blocks this (config this)
          = URL.mk (URL.scheme base) (URL.authority base)
              (URL.shorten (URL.path base) ++ ["v1"; realm this; "blocks"])
              None None) as Hblocks.
  { unfold apiConfig.blocks. resolve_entry. }
  unfold registerBlock, getBlock, deleteBlock. fold name.
  rewrite Hname, Hsource, Hblocks. unfold _get, _post, _delete.
  split; [|split; [|split]]; [| | |done].
  - by rewrite await_axios_log.
  - unfold mbind at 1, Http_bind at 1, await at 1.
    pose proof (await_axios_log
                  (request this GET
                     (URL.toString
                        (URL.mk (URL.scheme base) (URL.authority base)
                           (URL.shorten (URL.path base)
                            ++ ["v1"; realm this; "blocks"; name]) None None))
                     json None) block_of server log) as Hlog.
    destruct ((axios _ ≫= block_of) server log) as [[b|e] l]; simpl in *;
      rewrite Hlog; try done;
      intros response s l'; unfold block_of;
      by destruct (response_data response).
  - by rewrite await_axios_log.
Qed.

End RequestProperties.

Section SocketProperties.
Context `{Imports}.

(** X21: a client without a socket answers [joinRoom] with one call to
    the library, which opens a socket at [v1/socket] in place of the last
    path segment of the AppEngine base URL, under the scheme wss when the
    base URL is an https one and ws when it is an http one, with the
    realm and the token that the client holds at that time. *)
Theorem joinRoom_opens_socket w (roomName : string) :
  let base := appEngineApiUrl (urls (this w)) in
  phoenixSocket (this w) = None →
  URL.scheme base = "http" ∨ URL.scheme base = "https" →
  calls (joinRoom roomName w).1
  = calls w
    ++ [SocketConnect
          (Socket.mk (length (calls w))
             (URL.toString
                (URL.mk (if String.eqb (URL.scheme base) "https"
                         then "wss" else "ws")
                   (URL.authority base)
                   (URL.shorten (URL.path base) ++ ["v1"; "socket"])
                   None None))
             (realm (this w)) (token (this w)))].
Proof.
  intros base Hsocket Hscheme.
  unfold joinRoom, joinRoom_settling, openSocketConnection. simpl.
  rewrite Hsocket. simpl. fold base.
  assert (apiConfig.phoenixSocket (this w) (config (this w))
          = URL.mk (URL.scheme base) (URL.authority base)
              (URL.shorten (URL.path base) ++ ["v1"; "socket"]) None None)
    as ->.
  { unfold apiConfig.phoenixSocket, astarteAPIurl.
    by apply (resolve_plain "v1" ["socket"] base); [| |repeat constructor]. }
  unfold URL.set_protocol. cbn [URL.scheme URL.authority URL.path].
  by destruct Hscheme as [-> | ->].
Qed.

End SocketProperties.

(** * The further properties, on the sample deployment *)




(** X4: a volatile trigger is registered in the room [lobby]. *)
Lemma registerVolatileTrigger_settles_sample :
  joinedChannels (this Sample.connected) !! "lobby"
  = Some (Channel.mk 1 Sample.socket "rooms:test:lobby")
  ∧ calls (registerVolatileTrigger (H := Sample.imports) "lobby" "{}"
             Sample.connected).1
    = calls Sample.connected
      ++ [ChannelPush (Channel.mk 1 Sample.socket "rooms:test:lobby")
            "watch" "{}"]
  ∧ promise (deliver (ReplyError 2 "denied")
               (registerVolatileTrigger (H := Sample.imports) "lobby" "{}"
                  Sample.connected).1) 1
    = Some (Rejected (ChannelError "denied")).
Proof.
  split; [reflexivity|].
  destruct (registerVolatileTrigger_settles (H := Sample.imports)
              Sample.connected "lobby" "denied"
              (Channel.mk 1 Sample.socket "rooms:test:lobby") "{}")
    as (Hcalls & _ & _ & _ & Hrefused & _); [reflexivity|].
  split; [exact Hcalls|exact Hrefused].
Defined.

(** X5: one handler listens twice to the room [lobby]. *)
Lemma listenForEvents_twice_sample :
  joinedChannels (this Sample.connected) !! "lobby"
  = Some (Channel.mk 1 Sample.socket "rooms:test:lobby")
  ∧ calls (listenForEvents "lobby" 7
             (listenForEvents "lobby" 7 Sample.connected).1).1
    = calls Sample.connected
      ++ [ChannelOn (Channel.mk 1 Sample.socket "rooms:test:lobby")
            "new_event" 7;
          ChannelOn (Channel.mk 1 Sample.socket "rooms:test:lobby")
            "new_event" 7].
Proof.
  split; [reflexivity|].
  apply (listenForEvents_twice (H := Sample.imports) Sample.connected "lobby"
           (Channel.mk 1 Sample.socket "rooms:test:lobby") 7).
  reflexivity.
Defined.

(** X6: the registry of the sample client holds [lobby], joined by the
    second call that the client made to the library. *)
Lemma registry_rooms_were_joined_sample :
  joinedChannels
    (this (steps (boot Sample.configuration)
             [JoinRoom "lobby"; Deliver (SocketOpened 0); Deliver (ReplyOk 1)]))
    !! "lobby"
  = Some (Channel.mk 1 Sample.socket "rooms:test:lobby")
  ∧ calls (steps (boot Sample.configuration)
             [JoinRoom "lobby"; Deliver (SocketOpened 0); Deliver (ReplyOk 1)])
      !! 1
    = Some (ChannelJoin (Channel.mk 1 Sample.socket "rooms:test:lobby"))
  ∧ calls (steps (boot Sample.configuration)
             [JoinRoom "lobby"; Deliver (SocketOpened 0); Deliver (ReplyOk 1)])
      !! 0
    = Some (SocketConnect Sample.socket).
Proof.
  split; [reflexivity|].
  destruct (registry_rooms_were_joined (H := Sample.imports)
              Sample.configuration
              [JoinRoom "lobby"; Deliver (SocketOpened 0); Deliver (ReplyOk 1)]
              "lobby" (Channel.mk 1 Sample.socket "rooms:test:lobby"))
    as (_ & Hjoin & Hconnect & _); [reflexivity|].
  split; [exact Hjoin|exact Hconnect].
Defined.

(** X7: the sample client meets a socket error, leaves its room, loses
    its credentials and joins another room: the socket is the one it
    had. *)
Lemma socket_is_kept_sample :
  settled_on Sample.connected Sample.socket
  ∧ phoenixSocket
      (this (steps Sample.connected
               [Deliver (SocketError 0); LeaveRoom "lobby";
                Deliver (ReplyOk 2); SetCredentials None; JoinRoom "other"]))
    = Some Sample.socket
  ∧ filter is_connect
      (calls (steps Sample.connected
                [Deliver (SocketError 0); LeaveRoom "lobby";
                 Deliver (ReplyOk 2); SetCredentials None; JoinRoom "other"]))
    = [SocketConnect Sample.socket].
Proof.
  assert (settled_on Sample.connected Sample.socket) as Hsettled.
  { split; [reflexivity|]. intros ref s' roomName p.
    change (waiting Sample.connected) with (∅ : gmap nat Continuation).
    by rewrite lookup_empty. }
  split; [exact Hsettled|].
  apply (socket_is_kept (H := Sample.imports) Sample.socket
           [Deliver (SocketError 0); LeaveRoom "lobby";
            Deliver (ReplyOk 2); SetCredentials None; JoinRoom "other"]
           Sample.connected Hsettled).
Defined.


(** X9: two listeners of [socketError] on the sample client, and an
    error of its socket. *)
Lemma listeners_are_called_in_order_sample :
  is_socket (addListener "socketError" 5 Sample.connected) 0 = true
  ∧ fired (deliver (SocketError 0)
             (addListener "socketError" 6
                (addListener "socketError" 5 Sample.connected)))
    = [5; 6]
  ∧ fired (deliver (SocketClose 0)
             (addListener "socketError" 6
                (addListener "socketError" 5 Sample.connected)))
    = [].
Proof.
  split; [reflexivity|].
  apply (listeners_are_called_in_order (H := Sample.imports)
           (addListener "socketError" 5 Sample.connected) "socketError" 6 0).
  reflexivity.
Defined.

(** X10: of those two listeners, the first is removed. *)
Lemma removed_listener_is_not_called_sample :
  is_socket (addListener "socketError" 6
               (addListener "socketError" 5 Sample.connected)) 0 = true
  ∧ fired (deliver (SocketError 0)
             (removeListener "socketError" 5
                (addListener "socketError" 6
                   (addListener "socketError" 5 Sample.connected))))
    = [6].
Proof.
  split; [reflexivity|].
  apply (removed_listener_is_not_called (H := Sample.imports)
           (addListener "socketError" 6
              (addListener "socketError" 5 Sample.connected)) 5 0).
  reflexivity.
Defined.

(** X11: the sample client changes realm and joins [room]. *)
Lemma setCredentials_keeps_socket_sample :
  phoenixSocket (this Sample.connected) = Some Sample.socket
  ∧ joinedChannels (this Sample.connected) !! "room" = None
  ∧ calls (joinRoom "room"
             (setCredentials (Some ("other", "token")) Sample.connected)).1
    = calls Sample.connected
      ++ [ChannelJoin (Channel.mk 2 Sample.socket "rooms:other:room")].
Proof.
  split; [reflexivity|]. split; [reflexivity|].
  apply (setCredentials_keeps_socket (H := Sample.imports) Sample.connected
           "room" "other" "token" Sample.socket);
    [reflexivity|reflexivity|by_evaluation].
Defined.

(** X12: a trigger whose name holds a slash and a space is deleted. *)
Lemma deleteTrigger_encoded_once_sample :
  deleteTrigger Sample.client "a/b c" (Sample.always Nothing None) []
  = (Resolved (),
     [{| method := DELETE;
         url := "http://localhost:4002/appengine/v1/test/triggers/a%2Fb%20c";
         Authorization := "Bearer secret";
         Content_Type := "application/json;charset=UTF-8";
         request_data := None |}])
  ∧ Js.percent_decode "a%2Fb%20c" = "a/b c".
Proof.
  apply (deleteTrigger_encoded_once (H := Sample.imports) Sample.client "a/b c"
           (Sample.always Nothing None) []); [discriminate|discriminate|].
  reflexivity.
Defined.

(** X13: the deletions of the sample client, for one identifier. *)
Lemma deletions_by_identifier_sample :
  deleteTriggerDeliveryPolicy Sample.client "id-1"
    (Sample.always Nothing None) []
  = (Resolved (),
     [{| method := DELETE;
         url := "http://localhost:4002/appengine/v1/test/policies/id-1";
         Authorization := "Bearer secret";
         Content_Type := "application/json;charset=UTF-8";
         request_data := None |}])
  ∧ deleteDevice Sample.client "id-1" (Sample.always Nothing None) []
    = (Resolved (),
       [{| method := DELETE;
           url := "http://localhost:4002/appengine/v1/test/devices/id-1";
           Authorization := "Bearer secret";
           Content_Type := "application/json;charset=UTF-8";
           request_data := None |}])
  ∧ wipeDeviceCredentials Sample.client "id-1" (Sample.always Nothing None) []
    = (Resolved (),
       [{| method := DELETE;
           url := "http://localhost:4002/appengine/v1/test/agent/devices/id-1";
           Authorization := "Bearer secret";
           Content_Type := "application/json;charset=UTF-8";
           request_data := None |}])
  ∧ deleteFlowInstance Sample.client "id-1" (Sample.always Nothing None) []
    = (Resolved (),
       [{| method := DELETE;
           url := "https://api.example.com/flow/v1/test/flows/id-1";
           Authorization := "Bearer secret";
           Content_Type := "application/json;charset=UTF-8";
           request_data := None |}])
  ∧ deletePipeline Sample.client "id-1" (Sample.always Nothing None) []
    = (Resolved (),
       [{| method := DELETE;
           url := "https://api.example.com/flow/v1/test/pipelines/id-1";
           Authorization := "Bearer secret";
           Content_Type := "application/json;charset=UTF-8";
           request_data := None |}]).
Proof.
  apply (deletions_by_identifier (H := Sample.imports) Sample.client "id-1"
           (Sample.always Nothing None) []); reflexivity.
Defined.

(** X15: a base URL without a trailing slash, with a query. *)
Lemma astarteAPIurl_replaces_last_segment_sample :
  astarteAPIurl [""; "v1/"; "/devices"]
    (URL.mk "https" "api.example.com" ["astarte"; "appengine"]
       (Some "debug=1") None)
    ["realm"] {[ "realm" := "test" ]}
  = URL.mk "https" "api.example.com" ["astarte"; "v1"; "test"; "devices"]
      None None.
Proof.
  apply (astarteAPIurl_replaces_last_segment [""; "v1/"; "/devices"] ["realm"]
           {[ "realm" := "test" ]}
           (URL.mk "https" "api.example.com" ["astarte"; "appengine"]
              (Some "debug=1") None)
           ["astarte"] "appengine" "v1" ["test"; "devices"]).
  - reflexivity.
  - by vm_compute.
  - discriminate.
  - reflexivity.
  - repeat constructor.
Defined.

(** X16: the devices of a group, asked for without the name of the
    group, and with a parameter that the entry does not name. *)
Lemma endpointUrl_reads_named_parameters_sample :
  endpointUrl [""; "v1/"; "/groups/"; "/devices"] ["realm"; "groupName"]
    {[ "realm" := "test" ]}
  = endpointUrl [""; "v1/"; "/groups/"; "/devices"] ["realm"; "groupName"]
      (<["groupName" := ""]> (<["deviceId" := "d"]> {[ "realm" := "test" ]})).
Proof.
  apply (endpointUrl_reads_named_parameters
           [""; "v1/"; "/groups/"; "/devices"] ["realm"; "groupName"]
           {[ "realm" := "test" ]}
           (<["groupName" := ""]> (<["deviceId" := "d"]> {[ "realm" := "test" ]}))).
  repeat constructor.
Defined.

(** X17: a page of two devices is asked for, from a token that holds a
    space, an ampersand and an equals sign. *)
Lemma getDevices_sends_truthy_parameters_sample :
  (getDevices Sample.client
     {| details := Some false; from := Some "a b&c=d"; limit := Some 2%N |}
     (Sample.always (Devices []) None) []).2
  = [{| method := GET;
        url := "http://localhost:4002/appengine/v1/test/devices"
               +:+ "?limit=2&from_token=a+b%26c%3Dd";
        Authorization := "Bearer secret";
        Content_Type := "application/json;charset=UTF-8";
        request_data := None |}]
  ∧ URLSearchParams.of_string (Some "limit=2&from_token=a+b%26c%3Dd")
    = [("limit", "2"); ("from_token", "a b&c=d")].
Proof.
  destruct (getDevices_sends_truthy_parameters (H := Sample.imports)
              Sample.client
              {| details := Some false; from := Some "a b&c=d";
                 limit := Some 2%N |}
              (Sample.always (Devices (H := Sample.imports) []) None) [])
    as (Hlog & Hsent & _); [reflexivity|].
  split; [exact Hlog|exact Hsent].
Defined.

(** X18: the backend is out of reach of the sample client. *)
Lemma transport_error_is_propagated_sample :
  (∃ r, getDevices Sample.client
          {| details := None; from := None; limit := None |}
          (λ _ _, Rejected (RequestFailed "Network Error")) []
        = (Rejected (RequestFailed "Network Error"), [] ++ [r]))
  ∧ (∃ r, getBlocks Sample.client
            (λ _ _, Rejected (RequestFailed "Network Error")) []
          = (Rejected (RequestFailed "Network Error"), [] ++ [r]))
  ∧ (∃ r, registerBlock Sample.client (Sample.new_block "mine")
            (λ _ _, Rejected (RequestFailed "Network Error")) []
          = (Rejected (RequestFailed "Network Error"), [] ++ [r])).
Proof.
  destruct (transport_error_is_propagated (H := Sample.imports) Sample.client
              (λ _ _, Rejected (RequestFailed "Network Error")) []
              (RequestFailed "Network Error")
              {| details := None; from := None; limit := None |}
              "group" "device" "mine" "trigger" None (Sample.new_block "mine"))
    as (Hdevices & _ & _ & _ & Hblocks & _ & Hregister & _).
  - reflexivity.
  - discriminate.
  - discriminate.
  - by_evaluation.
  - by_evaluation.
  - split; [exact Hdevices|]. split; [exact Hblocks|exact Hregister].
Defined.

(** X19: a page of one device, with a next link that is a bare query
    string and with none. *)
Lemma getDevices_pagination_sample :
  getDevices Sample.client {| details := None; from := None; limit := Some 2%N |}
    (Sample.always (Devices ["device-1"])
       (Some {| self := None; next := Some "?from_token=abc&limit=2" |})) []
  = (Resolved (["device-1"], Some "abc"),
     [request Sample.client GET
        "http://localhost:4002/appengine/v1/test/devices?limit=2" json None])
  ∧ getDevices Sample.client
      {| details := None; from := Some "abc"; limit := Some 2%N |}
      (Sample.always (Devices ["device-3"])
         (Some {| self := None; next := None |})) []
    = (Resolved (["device-3"], None),
       [request Sample.client GET
          "http://localhost:4002/appengine/v1/test/devices?limit=2&from_token=abc"
          json None]).
Proof.
  split.
  - apply (proj2 (getDevices_pagination (H := Sample.imports) Sample.client
                    {| details := None; from := None; limit := Some 2%N |}
                    (Sample.always (Devices (H := Sample.imports) ["device-1"])
                       (Some {| self := None;
                                next := Some "?from_token=abc&limit=2" |}))
                    [] _ None (Some "?from_token=abc&limit=2") eq_refl)
             true "abc" "&limit=2").
    + reflexivity.
    + discriminate.
    + right. by exists "limit=2".
    + reflexivity.
  - apply (proj1 (getDevices_pagination (H := Sample.imports) Sample.client
                    {| details := None; from := Some "abc"; limit := Some 2%N |}
                    (Sample.always (Devices (H := Sample.imports) ["device-3"])
                       (Some {| self := None; next := None |}))
                    [] _ None None eq_refl)).
    reflexivity.
Defined.

(** X20: a block named [my-block_2] on the sample client. *)
Lemma valid_block_name_addresses_block_sample :
  (registerBlock Sample.client (Sample.new_block "my-block_2")
     (Sample.always (Block Sample.custom_block) None) []).2
  = [{| method := POST;
        url := "https://api.example.com/flow/v1/test/blocks";
        Authorization := "Bearer secret";
        Content_Type := "application/json;charset=UTF-8";
        request_data := Some (CustomBlock (Sample.new_block "my-block_2")) |}]
  ∧ (getBlock Sample.client "my-block_2"
       (Sample.always (Block Sample.custom_block) None) []).2
    = [{| method := GET;
          url := "https://api.example.com/flow/v1/test/blocks/my-block_2";
          Authorization := "Bearer secret";
          Content_Type := "application/json;charset=UTF-8";
          request_data := None |}]
  ∧ (deleteBlock Sample.client "my-block_2"
       (Sample.always (Block Sample.custom_block) None) []).2
    = [{| method := DELETE;
          url := "https://api.example.com/flow/v1/test/blocks/my-block_2";
          Authorization := "Bearer secret";
          Content_Type := "application/json;charset=UTF-8";
          request_data := None |}]
  ∧ Js.encodeURIComponent "my-block_2" = "my-block_2".
Proof.
  apply (valid_block_name_addresses_block (H := Sample.imports) Sample.client
           (Sample.new_block "my-block_2")
           (Sample.always (Block Sample.custom_block) None) []).
  - reflexivity.
  - by_evaluation.
  - reflexivity.
Defined.

(** X21: the first [joinRoom] of the sample client. *)
Lemma joinRoom_opens_socket_sample :
  calls (joinRoom "room" (boot Sample.configuration)).1
  = [SocketConnect Sample.socket].
Proof.
  apply (joinRoom_opens_socket (H := Sample.imports)
           (boot Sample.configuration) "room"); [reflexivity|by left].
Defined.

(** X22: the sample backend holds one custom block. *)
Lemma getBlocks_merged_sample :
  getBlocks Sample.client (Sample.always (Blocks [Sample.custom_block]) None) []
  = (Resolved [Sample.custom_block; Sample.filter_block],
     [request Sample.client GET "https://api.example.com/flow/v1/test/blocks"
        json None])
  ∧ NoDup ["mine"; "filter"].
Proof.
  destruct (getBlocks_merged (H := Sample.imports) Sample.client
              (Sample.always (Blocks [Sample.custom_block]) None) []
              [Sample.custom_block] None eq_refl)
    as (Hblocks & Hnames & _).
  split; [exact Hblocks|exact Hnames].
Defined.
